(** * SOCKS5 client (MTKruto/socks5, [utils.ts]): a shallow embedding

    The TypeScript module holds a byte reader ([readN]), the SOCKS5 address
    codec ([serializeAddress], [deserializeAddress]), the reply-status
    interpreter ([decodeError]) and the [Client] class with its handshake
    ([#connectAndRequest]) and its public [connect].

    Layout: [JS] holds the parts of the JavaScript runtime the module calls
    (number conversions, string operations, regular expressions, the text
    codecs); [Socks5] holds the module itself, function by function, under
    the names of the source; the lemmas and the theorems follow. *)

From Stdlib Require Import ZArith List String Ascii Bool Lia Arith.
From Stdlib Require Import DecimalString DecimalN DecimalPos.
From Stdlib Require Import HexadecimalString HexadecimalN.
Import ListNotations.

Local Open Scope string_scope.
Local Open Scope Z_scope.

(* ------------------------------------------------------------------ *)
(** ** The JavaScript runtime, as far as the module uses it *)
(* ------------------------------------------------------------------ *)

Module JS.

(** The numbers that flow through the module are integers, or [NaN] where a
    string does not convert. *)
Inductive number : Type :=
| NaN
| Int (z : Z).

(** What the engine does outside the fragments written out below: [Number]
    on a string that is neither empty nor a short run of decimal digits,
    [parseInt(_, 16)] on a string that is not a short run of hexadecimal
    digits, and [TextDecoder.decode] on bytes that are not well-formed
    UTF-8.  The development is parametric in these. *)
Class Engine : Type := {
  Number_other : string -> number;
  parseInt16_other : string -> number;
  decode_other : list Z -> string
}.

(** [ToInt32]: the operand conversion of the bitwise operators. *)
Definition ToInt32 (z : Z) : Z := (z + 2 ^ 31) mod 2 ^ 32 - 2 ^ 31.

(** [x >> n] and [x << n] on integers. *)
Definition shr (x n : Z) : Z := Z.shiftr (ToInt32 x) n.
Definition shl (x n : Z) : Z := ToInt32 (Z.shiftl (ToInt32 x) n).

(** [x >> n], [x % m] and [x + y] on numbers: [NaN >> n] is [0], while the
    remainder and the sum of [NaN] are [NaN]. *)
Definition shr_num (x : number) (n : Z) : number :=
  match x with
  | NaN => Int 0
  | Int z => Int (shr z n)
  end.

Definition rem_num (x : number) (m : Z) : number :=
  match x with
  | NaN => NaN
  | Int z => Int (Z.rem z m)
  end.

(** [ToUint8], the element conversion of [Uint8Array.from]. *)
Definition ToUint8 (x : number) : Z :=
  match x with
  | NaN => 0
  | Int z => z mod 256
  end.

Definition Uint8Array_from (xs : list number) : list Z := map ToUint8 xs.

(** [new Uint8Array(n)]: [n] zero bytes. *)
Definition Uint8Array_new (n : nat) : list Z := repeat 0 n.

(** [String(n)] and [`${n}`] for an integer: its decimal numeral. *)
Definition String_of_Z (z : Z) : string :=
  DecimalString.NilZero.string_of_int (Z.to_int z).

Definition String_of_number (x : number) : string :=
  match x with
  | NaN => "NaN"
  | Int z => String_of_Z z
  end.

(** [s.split(c)] for a one-character separator. *)
Fixpoint split (sep : ascii) (s : string) : list string :=
  match s with
  | EmptyString => [EmptyString]
  | String c s' =>
      if Ascii.eqb c sep then EmptyString :: split sep s'
      else match split sep s' with
           | g :: gs => String c g :: gs
           | [] => [String c EmptyString]
           end
  end.

(** [parts.join(sep)]. *)
Definition join (sep : string) (parts : list string) : string :=
  String.concat sep parts.

(** *** Numerals *)

Definition decimal_value (s : string) : option Z :=
  option_map (fun d => Z.of_N (N.of_uint d)) (DecimalString.NilEmpty.uint_of_string s).

(** [Number(s)]: the empty string is [0]; a run of at most 15 decimal digits
    is its value (exact as a double); the rest is the engine's. *)
Definition Number `{Engine} (s : string) : number :=
  match s with
  | EmptyString => Int 0
  | _ =>
      if (String.length s <=? 15)%nat then
        match decimal_value s with
        | Some v => Int v
        | None => Number_other s
        end
      else Number_other s
  end.

Definition hex_digit (c : ascii) : option Z :=
  let n := Z.of_nat (nat_of_ascii c) in
  if (48 <=? n) && (n <=? 57) then Some (n - 48)
  else if (65 <=? n) && (n <=? 70) then Some (n - 55)
  else if (97 <=? n) && (n <=? 102) then Some (n - 87)
  else None.

Fixpoint hex_value_from (acc : Z) (s : string) : option Z :=
  match s with
  | EmptyString => Some acc
  | String c s' =>
      match hex_digit c with
      | Some d => hex_value_from (16 * acc + d) s'
      | None => None
      end
  end.

Definition hex_value (s : string) : option Z := hex_value_from 0 s.

(** [parseInt(s, 16)]: a run of 1 to 13 hexadecimal digits is its value
    (exact as a double); the rest is the engine's. *)
Definition parseInt16 `{Engine} (s : string) : number :=
  if (1 <=? String.length s)%nat && (String.length s <=? 13)%nat then
    match hex_value s with
    | Some v => Int v
    | None => parseInt16_other s
    end
  else parseInt16_other s.

(** *** Regular expressions

    The two patterns of the module use character sets, concatenation and
    bounded repetition.  [ends r s] lists, in the order a backtracking
    matcher tries them, what is left of [s] after each way [r] can match at
    its start. *)

Inductive regex : Type :=
| Eps
| Chars (p : ascii -> bool)
| Cat (r1 r2 : regex)
| Alt (r1 r2 : regex).

(** [r{n}] *)
Fixpoint times (n : nat) (r : regex) : regex :=
  match n with
  | O => Eps
  | S k => Cat r (times k r)
  end.

(** [r{0,n}], greedy *)
Fixpoint upto (n : nat) (r : regex) : regex :=
  match n with
  | O => Eps
  | S k => Alt (Cat r (upto k r)) Eps
  end.

(** [r{lo,hi}] *)
Definition between (lo hi : nat) (r : regex) : regex :=
  Cat (times lo r) (upto (hi - lo) r).

Fixpoint ends (r : regex) (s : string) : list string :=
  match r with
  | Eps => [s]
  | Chars p =>
      match s with
      | String c s' => if p c then [s'] else []
      | EmptyString => []
      end
  | Cat r1 r2 => flat_map (ends r2) (ends r1 s)
  | Alt r1 r2 => ends r1 s ++ ends r2 s
  end.

(** A pattern [/^body/] or [/^body$/]. *)
Record RegExp : Type := {
  body : regex;
  to_end : bool
}.

Definition is_empty (s : string) : bool :=
  match s with
  | EmptyString => true
  | String _ _ => false
  end.

(** [re.test(s)] *)
Definition test (re : RegExp) (s : string) : bool :=
  if to_end re then existsb is_empty (ends (body re) s)
  else negb (Nat.eqb (List.length (ends (body re) s)) 0).

(** The language of a [regex]. *)
Inductive matches : regex -> string -> Prop :=
| m_eps : matches Eps EmptyString
| m_chars p c : p c = true -> matches (Chars p) (String c EmptyString)
| m_cat r1 r2 s1 s2 :
    matches r1 s1 -> matches r2 s2 -> matches (Cat r1 r2) (s1 ++ s2)
| m_alt_l r1 r2 s : matches r1 s -> matches (Alt r1 r2) s
| m_alt_r r1 r2 s : matches r2 s -> matches (Alt r1 r2) s.

(** [\d] *)
Definition digit (c : ascii) : bool :=
  let n := nat_of_ascii c in (48 <=? n)%nat && (n <=? 57)%nat.

(** [[A-F0-9]] under the [i] flag *)
Definition hex_ci (c : ascii) : bool :=
  match hex_digit c with
  | Some _ => true
  | None => false
  end.

Definition is_char (a : ascii) (c : ascii) : bool := Ascii.eqb c a.

(** *** Text codecs

    A string is held as the UTF-8 bytes of its text, which is how a string
    literal with non-ASCII characters reads here too.  [TextEncoder.encode]
    is then the list of its bytes, and [TextDecoder.decode] on well-formed
    UTF-8 the string of the bytes, less a leading byte-order mark; on
    ill-formed input the engine substitutes replacement characters. *)

Definition encode (s : string) : list Z :=
  map (fun c => Z.of_nat (nat_of_ascii c)) (list_ascii_of_string s).

Definition string_of_bytes (bs : list Z) : string :=
  string_of_list_ascii (map (fun b => ascii_of_nat (Z.to_nat b)) bs).

Definition in_range (lo hi b : Z) : bool := (lo <=? b) && (b <=? hi).

Definition cont (b : Z) : bool := in_range 128 191 b.

(** Well-formed UTF-8 byte sequences (Unicode, table 3-7). *)
Fixpoint utf8_wf (bs : list Z) : bool :=
  match bs with
  | [] => true
  | b0 :: t0 =>
      if in_range 0 127 b0 then utf8_wf t0
      else
        match t0 with
        | [] => false
        | b1 :: t1 =>
            if in_range 194 223 b0 then cont b1 && utf8_wf t1
            else
              match t1 with
              | [] => false
              | b2 :: t2 =>
                  if b0 =? 224 then in_range 160 191 b1 && cont b2 && utf8_wf t2
                  else if in_range 225 236 b0 || in_range 238 239 b0
                       then cont b1 && cont b2 && utf8_wf t2
                  else if b0 =? 237 then in_range 128 159 b1 && cont b2 && utf8_wf t2
                  else
                    match t2 with
                    | [] => false
                    | b3 :: t3 =>
                        if b0 =? 240
                        then in_range 144 191 b1 && cont b2 && cont b3 && utf8_wf t3
                        else if in_range 241 243 b0
                        then cont b1 && cont b2 && cont b3 && utf8_wf t3
                        else if b0 =? 244
                        then in_range 128 143 b1 && cont b2 && cont b3 && utf8_wf t3
                        else false
                    end
              end
        end
  end.

Definition strip_bom (bs : list Z) : list Z :=
  match bs with
  | 239 :: 187 :: 191 :: rest => rest
  | _ => bs
  end.

Definition decode `{Engine} (bs : list Z) : string :=
  if utf8_wf bs then string_of_bytes (strip_bom bs) else decode_other bs.

End JS.

(* ------------------------------------------------------------------ *)
(** ** The module *)
(* ------------------------------------------------------------------ *)

Module Socks5.
Import JS.

(** *** Errors and results *)

(** The exceptions in play: [Deno.errors.UnexpectedEof] from [readN], plain
    [Error] from the codec and the handshake, and whatever [conn.close()]
    throws on a connection that cannot be closed. *)
Inductive error : Type :=
| UnexpectedEof (message : string)
| Error (message : string)
| BadResource (message : string).

Inductive result (A : Type) : Type :=
| Ok (a : A)
| Err (e : error).

Arguments Ok {A} a.
Arguments Err {A} e.

(** An [async] function over a mutable resource of type [S]: the state is
    kept when the function throws. *)
Definition M (S A : Type) : Type := S -> result A * S.

Definition ret {S A} (a : A) : M S A := fun s => (Ok a, s).

Definition throw {S A} (e : error) : M S A := fun s => (Err e, s).

Definition bind {S A B} (m : M S A) (k : A -> M S B) : M S B :=
  fun s =>
    match m s with
    | (Ok a, s') => k a s'
    | (Err e, s') => (Err e, s')
    end.

Declare Scope async_scope.
Delimit Scope async_scope with async.
Notation "x <- m ;; k" := (bind m (fun x => k))
  (at level 61, m at next level, right associativity) : async_scope.
Notation "m ;; k" := (bind m (fun _ => k))
  (at level 61, right associativity) : async_scope.
Local Open Scope async_scope.

(** *** Readers

    A [Reader] is what the stream will deliver: the chunks of the successive
    [read] calls, then end of stream.  [read] fills at most the buffer it is
    given and keeps the rest of a chunk for the next call; it answers [None]
    ([null]) at the end. *)
Definition Reader : Type := list (list Z).

Definition read (capacity : nat) (r : Reader) : option (list Z) * Reader :=
  match r with
  | [] => (None, [])
  | chunk :: rest =>
      if (List.length chunk <=? capacity)%nat then (Some chunk, rest)
      else (Some (firstn capacity chunk), skipn capacity chunk :: rest)
  end.

(** [out.subarray(off)] filled with [data] from its start. *)
Definition fill (off : nat) (data out : list Z) : list Z :=
  firstn off out ++ data ++ skipn (off + List.length data) out.

Definition eof_message (missing : nat) : string :=
  "reached EOF but we expected to read "
  ++ String_of_Z (Z.of_nat missing) ++ " more bytes".

(** The [while (nRead < n)] loop of [readN].  The recursion runs down the
    chunks still to come; [readN_loop_step] states it as the loop of the
    source, one [read] per turn. *)
Fixpoint readN_loop (r : Reader) (n nRead : nat) (out : list Z)
  : result (list Z) * Reader :=
  if (nRead <? n)%nat then
    match r with
    | [] => (Err (UnexpectedEof (eof_message (n - nRead))), [])
    | chunk :: rest =>
        if (List.length chunk <=? n - nRead)%nat
        then readN_loop rest n (nRead + List.length chunk) (fill nRead chunk out)
        else (Ok (fill nRead (firstn (n - nRead) chunk) out),
              skipn (n - nRead) chunk :: rest)
    end
  else (Ok out, r).

Definition readN (n : nat) : M Reader (list Z) :=
  fun r => readN_loop r n 0 (Uint8Array_new n).

(** *** Constants and enumerations *)

Definition SOCKS_VERSION : Z := 5.
Definition USERNAME_PASSWORD_AUTH_VERSION : Z := 1.

Inductive AddrType : Type := IPv4 | DomainName | IPv6.

Definition AddrType_value (t : AddrType) : Z :=
  match t with
  | IPv4 => 1
  | DomainName => 3
  | IPv6 => 4
  end.

Inductive AuthMethod : Type := NoAuth | UsernamePassword | NoneAcceptable.

Definition AuthMethod_value (m : AuthMethod) : Z :=
  match m with
  | NoAuth => 0
  | UsernamePassword => 2
  | NoneAcceptable => 255
  end.

Inductive ReplyStatus : Type :=
| Success
| GeneralError
| RulesetError
| NetworkUnreachable
| HostUnreachable
| ConnectionRefused
| TTLExpired
| UnsupportedCommand
| UnsupportedAddress.

Definition ReplyStatus_value (s : ReplyStatus) : Z :=
  match s with
  | Success => 0
  | GeneralError => 1
  | RulesetError => 2
  | NetworkUnreachable => 3
  | HostUnreachable => 4
  | ConnectionRefused => 5
  | TTLExpired => 6
  | UnsupportedCommand => 7
  | UnsupportedAddress => 8
  end.

Inductive Command : Type := Connect | Bind | UdpAssociate.

Definition Command_value (c : Command) : Z :=
  match c with
  | Connect => 1
  | Bind => 2
  | UdpAssociate => 3
  end.

(** *** [decodeError] *)

Definition decodeError (status : Z) : string :=
  if status =? ReplyStatus_value GeneralError then "general SOCKS server failure"
  else if status =? ReplyStatus_value RulesetError then "connection not allowed by ruleset"
  else if status =? ReplyStatus_value NetworkUnreachable then "Network unreachable"
  else if status =? ReplyStatus_value HostUnreachable then "Host unreachable"
  else if status =? ReplyStatus_value ConnectionRefused then "Connection refused"
  else if status =? ReplyStatus_value TTLExpired then "TTL expired"
  else if status =? ReplyStatus_value UnsupportedCommand then "Command not supported"
  else if status =? ReplyStatus_value UnsupportedAddress then "Address type not supported"
  else "unknown SOCKS error".

(** *** The address codec *)

(** [/^(?:\d{1,3}\.){3}\d{1,3}/] *)
Definition v4Pattern : RegExp :=
  {| body := Cat (times 3 (Cat (between 1 3 (Chars digit)) (Chars (is_char "."))))
                 (between 1 3 (Chars digit));
     to_end := false |}.

(** [/^(?:[A-F0-9]{1,4}:){7}[A-F0-9]{1,4}$/i] *)
Definition v6Pattern : RegExp :=
  {| body := Cat (times 7 (Cat (between 1 4 (Chars hex_ci)) (Chars (is_char ":"))))
                 (between 1 4 (Chars hex_ci));
     to_end := true |}.

Section Codec.
Context `{Engine}.

Definition serializeAddress (hostname : string) (port : Z) : list Z :=
  let portBytes := [Int (shr port 8); Int (Z.rem port 256)] in
  if test v4Pattern hostname then
    Uint8Array_from
      ([Int (AddrType_value IPv4)]
       ++ map Number (split "." hostname)
       ++ portBytes)
  else if test v6Pattern hostname then
    Uint8Array_from
      ([Int (AddrType_value IPv6)]
       ++ flat_map (fun x => let num := parseInt16 x in
                             [shr_num num 8; rem_num num 256])
                   (split ":" hostname)
       ++ portBytes)
  else
    let bytes := encode hostname in
    Uint8Array_from
      ([Int (AddrType_value DomainName); Int (Z.of_nat (List.length bytes))]
       ++ map Int bytes
       ++ portBytes).

(** The [for (i = 0; i < buff.length; i += 2)] loop of the IPv6 branch:
    [(buff[i] << 8) + buff[i + 1]], where a missing [buff[i + 1]] makes the
    sum [NaN]. *)
Fixpoint groups16 (buff : list Z) : list number :=
  match buff with
  | [] => []
  | [hi] => [NaN]
  | hi :: lo :: rest => Int (shl hi 8 + lo) :: groups16 rest
  end.

Record Decoded : Type := {
  value : string;
  length : Z
}.

Record Address : Type := {
  hostname : string;
  port : Z;
  bytesRead : Z
}.

(** [const [a, b] = bytes]: the elements of a buffer that has them. *)
Definition at_ (i : nat) (bytes : list Z) : Z := nth i bytes 0.

Definition deserializeAddress : M Reader Address :=
  b <- readN 1 ;;
  let type := at_ 0 b in
  hostname <-
    (if type =? AddrType_value IPv4 then
       parts <- readN 4 ;;
       ret {| value := join "." (map String_of_Z parts); length := 4 |}
     else if type =? AddrType_value IPv6 then
       buff <- readN 16 ;;
       let parts := groups16 buff in
       ret {| value := join ":" (map String_of_number parts); length := 16 |}
     else if type =? AddrType_value DomainName then
       l <- readN 1 ;;
       let length := at_ 0 l in
       name <- readN (Z.to_nat length) ;;
       ret {| value := decode name; length := length + 1 |}
     else
       throw (Error ("unexpected address type: " ++ String_of_Z type))) ;;
  p <- readN 2 ;;
  let portUpper := at_ 0 p in
  let portLower := at_ 1 p in
  let port := shl portUpper 8 + portLower in
  ret {| hostname := value hostname; port := port;
         bytesRead := length hostname + 3 |}.

End Codec.

(** *** Connections

    The connection [Deno.connect] hands back: the bytes the proxy will send,
    the payloads written so far (one per [writeAll]), how many times [close]
    was called, and whether [close] throws. *)
Record Conn : Type := {
  incoming : Reader;
  outgoing : list (list Z);
  close_calls : nat;
  close_throws : bool
}.

Definition from_proxy (chunks : Reader) (throws : bool) : Conn :=
  {| incoming := chunks; outgoing := []; close_calls := 0;
     close_throws := throws |}.

(** A [Reader] operation run on the connection. *)
Definition on_conn {A} (m : M Reader A) : M Conn A :=
  fun c =>
    let (res, r) := m (incoming c) in
    (res, {| incoming := r; outgoing := outgoing c;
             close_calls := close_calls c; close_throws := close_throws c |}).

Definition writeAll (bytes : list Z) : M Conn unit :=
  fun c =>
    (Ok tt, {| incoming := incoming c; outgoing := outgoing c ++ [bytes];
               close_calls := close_calls c; close_throws := close_throws c |}).

Definition close : M Conn unit :=
  fun c =>
    (if close_throws c then Err (BadResource "Bad resource ID") else Ok tt,
     {| incoming := incoming c; outgoing := outgoing c;
        close_calls := S (close_calls c); close_throws := close_throws c |}).

(** [try { conn.close(); } catch { /* ignore */ }] *)
Definition try_close : M Conn unit :=
  fun c => (Ok tt, snd (close c)).

(** *** [Client] *)

Record AuthConfig : Type := {
  username : string;
  password : string
}.

(** [ClientConfig = AddrConfig | (AddrConfig & AuthConfig)] *)
Record ClientConfig : Type := {
  cfg_hostname : string;
  cfg_port : option Z;
  cfg_auth : option AuthConfig
}.

(** [Required<ClientConfig>], the private [#config]. *)
Record Client : Type := {
  config_hostname : string;
  config_port : Z;
  config_auth : option AuthConfig
}.

Definition new_Client (config : ClientConfig) : Client :=
  {| config_hostname := cfg_hostname config;
     config_port := match cfg_port config with
                    | Some p => p
                    | None => 1080
                    end;
     config_auth := cfg_auth config |}.

(** ["username" in this.#config] *)
Definition has_username (this : Client) : bool :=
  match config_auth this with
  | Some _ => true
  | None => false
  end.

(** [te.encode(cfg.username)]: an absent field encodes as the empty text. *)
Definition encode_field (f : AuthConfig -> string) (this : Client) : list Z :=
  match config_auth this with
  | Some a => encode (f a)
  | None => []
  end.

Section Handshake.
Context `{Engine}.

Definition methods_of (this : Client) : list Z :=
  [AuthMethod_value NoAuth]
  ++ (if has_username this then [AuthMethod_value UsernamePassword] else []).

Definition connectAndRequest (this : Client) (cmd : Command)
  (hostname : string) (port : Z) : M Conn Address :=
  (* handle auth negotiation *)
  let methods := methods_of this in
  writeAll (Uint8Array_from
              ([Int SOCKS_VERSION; Int (Z.of_nat (List.length methods))]
               ++ map Int methods)) ;;
  b <- on_conn (readN 2) ;;
  let negotiationVersion := at_ 0 b in
  let method := at_ 1 b in
  (if negb (negotiationVersion =? SOCKS_VERSION)
      || (method =? AuthMethod_value NoneAcceptable)
   then
     try_close ;;
     throw (Error
              (if negb (negotiationVersion =? SOCKS_VERSION)
               then "unsupported SOCKS version number: "
                    ++ String_of_Z negotiationVersion
               else "no acceptable authentication methods"))
   else ret tt) ;;
  (if method =? AuthMethod_value UsernamePassword then
     let username := encode_field username this in
     let password := encode_field password this in
     writeAll (Uint8Array_from
                 ([Int USERNAME_PASSWORD_AUTH_VERSION;
                   Int (Z.of_nat (List.length username))]
                  ++ map Int username
                  ++ [Int (Z.of_nat (List.length password))]
                  ++ map Int password)) ;;
     a <- on_conn (readN 2) ;;
     let authVersion := at_ 0 a in
     let status := at_ 1 a in
     if negb (authVersion =? USERNAME_PASSWORD_AUTH_VERSION)
        || negb (status =? ReplyStatus_value Success)
     then
       try_close ;;
       throw (Error
                (if negb (authVersion =? USERNAME_PASSWORD_AUTH_VERSION)
                 then "unsupported authentication version number: "
                      ++ String_of_Z authVersion
                 else "authentication failed"))
     else ret tt
   else ret tt) ;;
  (* handle actual message *)
  writeAll (Uint8Array_from
              ([Int SOCKS_VERSION; Int (Command_value cmd); Int 0]
               ++ map Int (serializeAddress hostname port))) ;;
  r <- on_conn (readN 3) ;;
  let replyVersion := at_ 0 r in
  let status := at_ 1 r in
  (if negb (replyVersion =? SOCKS_VERSION)
      || negb (status =? ReplyStatus_value Success)
   then
     try_close ;;
     throw (Error
              (if negb (replyVersion =? SOCKS_VERSION)
               then "unsupported SOCKS version number: "
                    ++ String_of_Z replyVersion
               else decodeError status))
   else ret tt) ;;
  on_conn deserializeAddress.

(** [Deno.ConnectOptions], [Deno.NetAddr] and the object [connect] returns
    (its address fields; the other members forward to the connection). *)
Record ConnectOptions : Type := {
  opts_hostname : option string;
  opts_port : Z
}.

Record NetAddr : Type := {
  addr_hostname : string;
  addr_port : Z;
  transport : string
}.

Record TcpConn : Type := {
  localAddr : NetAddr;
  remoteAddr : NetAddr
}.

Definition connect (this : Client) (opts : ConnectOptions) : M Conn TcpConn :=
  let remoteAddr :=
    {| addr_hostname := match opts_hostname opts with
                        | Some h => h
                        | None => "127.0.0.1"
                        end;
       addr_port := opts_port opts;
       transport := "tcp" |} in
  a <- connectAndRequest this Connect (addr_hostname remoteAddr)
                         (addr_port remoteAddr) ;;
  let localAddr :=
    {| addr_hostname := hostname a; addr_port := port a; transport := "tcp" |} in
  ret {| localAddr := localAddr; remoteAddr := remoteAddr |}.

End Handshake.

End Socks5.

(* ------------------------------------------------------------------ *)
(** ** Vocabulary of the statements *)
(* ------------------------------------------------------------------ *)

Import JS Socks5.
Local Open Scope list_scope.

(** An engine that converts nothing outside the fragments of [JS].  The
    closed examples below run on it; none of them leaves the fragments. *)
Definition plain_engine : Engine :=
  {| Number_other := fun _ => NaN;
     parseInt16_other := fun _ => NaN;
     decode_other := fun _ => EmptyString |}.

(** Every character of [s] is in the set [p]. *)
Fixpoint all_chars (p : ascii -> bool) (s : string) : bool :=
  match s with
  | EmptyString => true
  | String c s' => p c && all_chars p s'
  end.

(** The number of bytes a reader still has to deliver. *)
Definition pending (r : Reader) : nat := List.length (List.concat r).

(** The connection after a read left [r] to come, after [bytes] were
    written, and after one call of [close]. *)
Definition with_incoming (r : Reader) (c : Conn) : Conn :=
  {| incoming := r; outgoing := outgoing c;
     close_calls := close_calls c; close_throws := close_throws c |}.

Definition sent (bytes : list Z) (c : Conn) : Conn :=
  {| incoming := incoming c; outgoing := outgoing c ++ [bytes];
     close_calls := close_calls c; close_throws := close_throws c |}.

Definition closed_once (c : Conn) : Conn :=
  {| incoming := incoming c; outgoing := outgoing c;
     close_calls := S (close_calls c); close_throws := close_throws c |}.

(** The method-negotiation message of a client, and its request. *)
Definition greeting (this : Client) : list Z :=
  match config_auth this with
  | Some _ => [5; 2; 0; 2]
  | None => [5; 1; 0]
  end.

Definition request `{Engine} (cmd : Command) (h : string) (p : Z) : list Z :=
  [5; Command_value cmd; 0] ++ serializeAddress h p.

(** The username/password message for the credentials [a]. *)
Definition auth_message (a : AuthConfig) : list Z :=
  [1; Z.of_nat (List.length (encode (username a))) mod 256]
  ++ encode (username a)
  ++ [Z.of_nat (List.length (encode (password a))) mod 256]
  ++ encode (password a).

(** [m] only adds to what was written. *)
Definition grows {A} (m : M Conn A) : Prop :=
  forall c, exists tail, outgoing (snd (m c)) = outgoing c ++ tail.

(** The eight 16-bit values of a 16-byte IPv6 address, big-endian. *)
Fixpoint be16 (buff : list Z) : list Z :=
  match buff with
  | hi :: lo :: rest => (256 * hi + lo) :: be16 rest
  | _ => []
  end.

(** Groups joined by colons, as decimal and as hexadecimal numerals. *)
Definition colon_decimal (groups : list Z) : string :=
  join ":" (map String_of_Z groups).

Definition hex_of_Z (z : Z) : string :=
  HexadecimalString.NilZero.string_of_uint (N.to_hex_uint (Z.to_N z)).

Definition colon_hex (groups : list Z) : string :=
  join ":" (map hex_of_Z groups).

(** The integer groups of an IPv6 hostname: its colon-separated fields read
    as hexadecimal numerals. *)
Definition ipv6_groups (host : string) : list (option Z) :=
  map hex_value (split ":" host).

(** Dotted-decimal text of four octets. *)
Definition ipv4_text (a b c d : Z) : string :=
  join "." (map String_of_Z [a; b; c; d]).

(** Serializing an address and decoding the bytes, delivered at once. *)
Definition roundtrip `{Engine} (host : string) (port : Z)
  : result Address * Reader :=
  deserializeAddress [serializeAddress host port].

(** A name of 256 bytes. *)
Definition long_name : string :=
  string_of_list_ascii (repeat "a"%char 256).

(** [g] has no character [sep]. *)
Definition lacks (sep : ascii) (g : string) : bool :=
  all_chars (fun c => negb (Ascii.eqb c sep)) g.

(** The decimal numeral of [n] is one to three digits. *)
Definition byte_numeral_ok (n : nat) : bool :=
  let g := String_of_Z (Z.of_nat n) in
  all_chars digit g && (1 <=? String.length g)%nat && (String.length g <=? 3)%nat.

(** [g1 sep g2 sep ... gn sep tail] *)
Definition fields (sep : ascii) (gs : list string) (tail : string) : string :=
  fold_right (fun g acc => (g ++ String sep acc)%string) tail gs.

(** A run of one to four hexadecimal digits. *)
Definition hex_field (g : string) : Prop :=
  all_chars hex_ci g = true /\ (1 <= String.length g <= 4)%nat.

(** The two bytes of each 16-bit group, high byte first. *)
Definition group_bytes (vs : list Z) : list Z :=
  flat_map (fun v => [v / 256; v mod 256]) vs.

(** Two readers that deliver the same bytes, cut differently. *)
Definition same_bytes (r1 r2 : Reader) : Prop :=
  List.concat r1 = List.concat r2.

(** Two connections that differ only in how the incoming bytes are cut. *)
Definition same_stream (c1 c2 : Conn) : Prop :=
  same_bytes (incoming c1) (incoming c2)
  /\ outgoing c1 = outgoing c2
  /\ close_calls c1 = close_calls c2
  /\ close_throws c1 = close_throws c2.

(** [m] gives the same result, and leaves the same state, on states that
    are the same up to [R]. *)
Definition respects {S A} (R : S -> S -> Prop) (m : M S A) : Prop :=
  forall s1 s2, R s1 s2 -> fst (m s1) = fst (m s2) /\ R (snd (m s1)) (snd (m s2)).

(** [m] calls [close] at most once, and only to throw an [Error]. *)
Definition closes_to_throw {A} (m : M Conn A) : Prop :=
  forall c,
    close_calls (snd (m c)) = close_calls c
    \/ (close_calls (snd (m c)) = S (close_calls c)
        /\ exists message, fst (m c) = Err (Error message)).

(** [m] writes nothing. *)
Definition quiet {A} (m : M Conn A) : Prop :=
  forall c, outgoing (snd (m c)) = outgoing c.

(** The destination hostname of a [connect] call. *)
Definition destination (opts : ConnectOptions) : string :=
  match opts_hostname opts with
  | Some h => h
  | None => "127.0.0.1"
  end.

(** The object [connect] returns for the bound address [a]. *)
Definition tunnel (opts : ConnectOptions) (a : Address) : TcpConn :=
  {| localAddr := {| addr_hostname := hostname a; addr_port := port a;
                     transport := "tcp" |};
     remoteAddr := {| addr_hostname := destination opts;
                      addr_port := opts_port opts;
                      transport := "tcp" |} |}.

(** Sample clients and a sample destination for the closed examples. *)
Definition anonymous : Client :=
  new_Client {| cfg_hostname := "proxy.example"; cfg_port := None;
                cfg_auth := None |}.

Definition credentials : AuthConfig :=
  {| username := "user"; password := "pass" |}.

Definition registered : Client :=
  new_Client {| cfg_hostname := "proxy.example"; cfg_port := Some 1081;
                cfg_auth := Some credentials |}.

Definition to_example : ConnectOptions :=
  {| opts_hostname := Some "example.com"; opts_port := 443 |}.

(* ------------------------------------------------------------------ *)
(** ** [readN] *)
(* ------------------------------------------------------------------ *)

(** The recursion of [readN_loop] is the loop of the source: while
    [nRead < n], one [read] into the rest of the buffer, end of stream
    throws, and the count goes up by what was read. *)
Lemma readN_loop_step (r : Reader) (n nRead : nat) (out : list Z) :
  readN_loop r n nRead out =
  if (nRead <? n)%nat then
    match read (n - nRead) r with
    | (None, r') => (Err (UnexpectedEof (eof_message (n - nRead))), r')
    | (Some data, r') =>
        readN_loop r' n (nRead + List.length data) (fill nRead data out)
    end
  else (Ok out, r).
Proof.
  destruct r as [|chunk rest]; simpl.
  - reflexivity.
  - destruct (nRead <? n)%nat eqn:Hlt; [|reflexivity].
    destruct (List.length chunk <=? n - nRead)%nat eqn:Hfit; [reflexivity|].
    apply Nat.ltb_lt in Hlt. apply Nat.leb_gt in Hfit.
    rewrite length_firstn, Nat.min_l by lia.
    replace (nRead + (n - nRead))%nat with n by lia.
    simpl. rewrite Nat.ltb_irrefl. reflexivity.
Qed.

Lemma fill_length off data out :
  (off + List.length data <= List.length out)%nat ->
  List.length (fill off data out) = List.length out.
Proof.
  intros Hfit. unfold fill.
  rewrite !length_app, length_firstn, length_skipn. lia.
Qed.

Lemma fill_firstn off data out :
  (off + List.length data <= List.length out)%nat ->
  firstn (off + List.length data) (fill off data out) = firstn off out ++ data.
Proof.
  intros Hfit. unfold fill.
  rewrite app_assoc.
  rewrite firstn_app.
  rewrite length_app, length_firstn, Nat.min_l by lia.
  rewrite Nat.sub_diag. simpl. rewrite app_nil_r.
  apply firstn_all2. rewrite length_app, length_firstn. lia.
Qed.

Lemma fill_exact off data out :
  (off + List.length data = List.length out)%nat ->
  fill off data out = firstn off out ++ data.
Proof.
  intros Hfit. unfold fill.
  rewrite skipn_all2 by lia. rewrite app_nil_r. reflexivity.
Qed.

Lemma readN_loop_ok (r : Reader) : forall (n nRead : nat) (out : list Z),
  (nRead <= n)%nat -> List.length out = n ->
  (n - nRead <= List.length (List.concat r))%nat ->
  exists r',
    readN_loop r n nRead out
    = (Ok (firstn nRead out ++ firstn (n - nRead) (List.concat r)), r')
    /\ List.concat r' = skipn (n - nRead) (List.concat r).
Proof.
  induction r as [|chunk rest IH]; intros n nRead out Hle Hout Hhave.
  - simpl in *. assert (nRead = n) by lia. subst nRead.
    exists []. rewrite Nat.ltb_irrefl, Nat.sub_diag. simpl.
    rewrite app_nil_r, firstn_all2 by lia. auto.
  - simpl readN_loop. destruct (nRead <? n)%nat eqn:Hlt.
    + apply Nat.ltb_lt in Hlt.
      destruct (List.length chunk <=? n - nRead)%nat eqn:Hfit.
      * apply Nat.leb_le in Hfit.
        simpl in Hhave. rewrite length_app in Hhave.
        destruct (IH n (nRead + List.length chunk)%nat (fill nRead chunk out))
          as (r' & Hrun & Hrest); try lia.
        { rewrite fill_length; lia. }
        exists r'. rewrite Hrun. split.
        -- f_equal. f_equal. rewrite fill_firstn by lia.
           rewrite <- app_assoc. f_equal. simpl.
           rewrite firstn_app.
           rewrite (firstn_all2 (n:=(n - nRead)%nat) chunk) by lia.
           f_equal. f_equal. lia.
        -- rewrite Hrest. simpl. rewrite skipn_app.
           rewrite (skipn_all2 (n:=(n - nRead)%nat) chunk) by lia. simpl.
           f_equal. lia.
      * apply Nat.leb_gt in Hfit.
        exists (skipn (n - nRead) chunk :: rest). split.
        -- f_equal. f_equal.
           rewrite fill_exact by (rewrite length_firstn; lia).
           f_equal. simpl. rewrite firstn_app.
           replace (n - nRead - List.length chunk)%nat with O by lia.
           simpl. rewrite app_nil_r. reflexivity.
        -- simpl. rewrite skipn_app.
           replace (n - nRead - List.length chunk)%nat with O by lia.
           reflexivity.
    + apply Nat.ltb_ge in Hlt. assert (nRead = n) by lia. subst nRead.
      exists (chunk :: rest). rewrite Nat.sub_diag. simpl.
      rewrite app_nil_r, firstn_all2 by lia. auto.
Qed.

Lemma readN_loop_eof (r : Reader) : forall (n nRead : nat) (out : list Z),
  (List.length (List.concat r) < n - nRead)%nat ->
  readN_loop r n nRead out
  = (Err (UnexpectedEof
            (eof_message (n - nRead - List.length (List.concat r)))), []).
Proof.
  induction r as [|chunk rest IH]; intros n nRead out Hshort.
  - simpl in *. assert (Hlt : (nRead <? n)%nat = true) by (apply Nat.ltb_lt; lia).
    rewrite Hlt, Nat.sub_0_r. reflexivity.
  - simpl in Hshort. rewrite length_app in Hshort.
    simpl readN_loop.
    assert (Hlt : (nRead <? n)%nat = true) by (apply Nat.ltb_lt; lia).
    assert (Hfit : (List.length chunk <=? n - nRead)%nat = true)
      by (apply Nat.leb_le; lia).
    rewrite Hlt, Hfit, IH by lia.
    simpl List.concat. rewrite length_app.
    replace (n - (nRead + List.length chunk) - List.length (List.concat rest))%nat
      with (n - nRead - (List.length chunk + List.length (List.concat rest)))%nat
      by lia.
    reflexivity.
Qed.

Lemma readN_ok (n : nat) (r : Reader) :
  (n <= List.length (List.concat r))%nat ->
  exists r',
    readN n r = (Ok (firstn n (List.concat r)), r')
    /\ List.concat r' = skipn n (List.concat r).
Proof.
  intros Hhave. unfold readN.
  destruct (readN_loop_ok r n 0%nat (Uint8Array_new n))
    as (r' & Hrun & Hrest); try lia.
  - unfold Uint8Array_new. apply repeat_length.
  - rewrite Nat.sub_0_r in *. simpl in Hrun. exists r'. auto.
Qed.

Lemma readN_eof (n : nat) (r : Reader) :
  (List.length (List.concat r) < n)%nat ->
  readN n r
  = (Err (UnexpectedEof (eof_message (n - List.length (List.concat r)))), []).
Proof.
  intros Hshort. unfold readN. rewrite readN_loop_eof by lia.
  rewrite Nat.sub_0_r. reflexivity.
Qed.

(** The form the codec and the handshake use: the stream starts with the
    [n] bytes [pre]. *)
Lemma readN_prefix (pre rest : list Z) (r : Reader) :
  List.concat r = pre ++ rest ->
  exists r',
    readN (List.length pre) r = (Ok pre, r') /\ List.concat r' = rest.
Proof.
  intros Hr.
  destruct (readN_ok (List.length pre) r) as (r' & Hrun & Hrest).
  - rewrite Hr, length_app. lia.
  - exists r'. rewrite Hrun, Hrest, Hr.
    rewrite firstn_app, Nat.sub_diag, firstn_all. simpl. rewrite app_nil_r.
    rewrite skipn_app, Nat.sub_diag, skipn_all. auto.
Qed.

(** A [readN] that returns took its bytes off the front of the stream. *)
Lemma readN_Ok (n : nat) (r r' : Reader) (bs : list Z) :
  readN n r = (Ok bs, r') ->
  List.concat r = bs ++ List.concat r' /\ List.length bs = n.
Proof.
  intros Hrun. destruct (le_lt_dec n (List.length (List.concat r))) as [Hle|Hlt].
  - destruct (readN_ok n r Hle) as (r1 & Hr1 & Hrest).
    rewrite Hr1 in Hrun. injection Hrun as <- <-. rewrite Hrest.
    rewrite firstn_skipn, length_firstn. split; [reflexivity|lia].
  - rewrite readN_eof in Hrun by exact Hlt. discriminate.
Qed.

Lemma singleton (bs : list Z) : List.length bs = 1%nat -> bs = [at_ 0 bs].
Proof. destruct bs as [|b [|? ?]]; try discriminate. reflexivity. Qed.

(** A bind that returns ran both of its parts. *)
Lemma bind_Ok {S A B} (m : M S A) (k : A -> M S B) (s s' : S) (b : B) :
  bind m k s = (Ok b, s') ->
  exists a s1, m s = (Ok a, s1) /\ k a s1 = (Ok b, s').
Proof.
  unfold bind. destruct (m s) as [[a|e] s1]; intros Hrun.
  - eauto.
  - discriminate.
Qed.

(** Claim C5.  [readN] asked for [n] bytes returns exactly the first [n]
    bytes of the stream, however the stream cuts them into reads (empty
    reads included), and leaves the rest unread; when the stream ends after
    [k < n] bytes it throws [UnexpectedEof] whose message reads "reached EOF
    but we expected to read [n - k] more bytes", the count in decimal. *)
Theorem readN_exact_or_eof (n : nat) (r : Reader) :
  ((n <= pending r)%nat ->
   exists r',
     readN n r = (Ok (firstn n (List.concat r)), r')
     /\ List.length (firstn n (List.concat r)) = n
     /\ List.concat r' = skipn n (List.concat r))
  /\ ((pending r < n)%nat ->
      readN n r
      = (Err (UnexpectedEof
                ("reached EOF but we expected to read "
                 ++ String_of_Z (Z.of_nat (n - pending r))
                 ++ " more bytes")%string), [])).
Proof.
  unfold pending. split.
  - intros Hhave. destruct (readN_ok n r Hhave) as (r' & Hrun & Hrest).
    exists r'. repeat split; trivial.
    rewrite length_firstn. lia.
  - intros Hshort. rewrite (readN_eof n r Hshort). reflexivity.
Qed.

Lemma readN_exact_or_eof_witness :
  (exists r',
     readN 3 [[1]; []; [2; 3; 4]; [5]] = (Ok [1; 2; 3], r')
     /\ List.length [1; 2; 3] = 3%nat
     /\ List.concat r' = [4; 5])
  /\ readN 2 [[5]]
     = (Err (UnexpectedEof "reached EOF but we expected to read 1 more bytes"),
        [])
  /\ readN 300 [[1; 2]; []; [3; 4; 5; 6; 7]; [8; 9; 10; 11; 12]]
     = (Err (UnexpectedEof "reached EOF but we expected to read 288 more bytes"),
        []).
Proof.
  split; [|split].
  - apply (proj1 (readN_exact_or_eof 3 [[1]; []; [2; 3; 4]; [5]])).
    vm_compute. lia.
  - apply (proj2 (readN_exact_or_eof 2 [[5]])).
    vm_compute. lia.
  - apply (proj2 (readN_exact_or_eof
                    300 [[1; 2]; []; [3; 4; 5; 6; 7]; [8; 9; 10; 11; 12]])).
    vm_compute. lia.
Defined.

(* ------------------------------------------------------------------ *)
(** ** [decodeError] *)
(* ------------------------------------------------------------------ *)

(** Claim C6.  [decodeError] maps the status codes 1 to 8 to their
    messages, 5 to "Connection refused" and 8 to "Address type not
    supported" among them, and every other value to "unknown SOCKS
    error". *)
Theorem decodeError_table :
  decodeError 1 = "general SOCKS server failure"%string
  /\ decodeError 2 = "connection not allowed by ruleset"%string
  /\ decodeError 3 = "Network unreachable"%string
  /\ decodeError 4 = "Host unreachable"%string
  /\ decodeError 5 = "Connection refused"%string
  /\ decodeError 6 = "TTL expired"%string
  /\ decodeError 7 = "Command not supported"%string
  /\ decodeError 8 = "Address type not supported"%string
  /\ (forall status : Z,
        ~ (1 <= status <= 8) -> decodeError status = "unknown SOCKS error"%string).
Proof.
  repeat split; try reflexivity.
  intros status Hout. unfold decodeError. simpl ReplyStatus_value.
  repeat match goal with
         | |- context [?a =? ?b] =>
             destruct (Z.eqb_spec a b) as [Heq|_]; [exfalso; lia|]
         end.
  reflexivity.
Qed.

Lemma decodeError_table_witness :
  decodeError 0 = "unknown SOCKS error"%string
  /\ decodeError 9 = "unknown SOCKS error"%string.
Proof.
  destruct decodeError_table as (_ & _ & _ & _ & _ & _ & _ & _ & Hother).
  split; apply Hother; lia.
Defined.

(* ------------------------------------------------------------------ *)
(** ** [deserializeAddress] *)
(* ------------------------------------------------------------------ *)

(** [take pre rest Hr]: the next [readN] returns [pre], given the proof [Hr]
    that the stream starts with it. *)
Ltac take pre rest Hr :=
  let r' := fresh "r" in
  let Hrun := fresh "Hrun" in
  let Hrest := fresh "Hrest" in
  destruct (readN_prefix pre rest _ Hr) as (r' & Hrun & Hrest);
  simpl List.length in Hrun.

Section Decoding.
Context `{Engine}.

Lemma deserializeAddress_IPv4 (a p rest : list Z) (r : Reader) :
  List.length a = 4%nat -> List.length p = 2%nat ->
  List.concat r = [1] ++ a ++ p ++ rest ->
  exists r',
    deserializeAddress r
    = (Ok {| hostname := join "." (map String_of_Z a);
             port := shl (at_ 0 p) 8 + at_ 1 p;
             bytesRead := 7 |}, r')
    /\ List.concat r' = rest.
Proof.
  intros Ha Hp Hr. unfold deserializeAddress, bind, ret.
  take [1] (a ++ p ++ rest) Hr. rewrite Hrun.
  take a (p ++ rest) Hrest. rewrite Ha in *.
  take p rest Hrest0. rewrite Hp in *.
  change (at_ 0 [1] =? AddrType_value IPv4) with true. cbv beta iota.
  rewrite Hrun0, Hrun1. simpl. eauto.
Qed.

Lemma deserializeAddress_IPv6 (a p rest : list Z) (r : Reader) :
  List.length a = 16%nat -> List.length p = 2%nat ->
  List.concat r = [4] ++ a ++ p ++ rest ->
  exists r',
    deserializeAddress r
    = (Ok {| hostname := join ":" (map String_of_number (groups16 a));
             port := shl (at_ 0 p) 8 + at_ 1 p;
             bytesRead := 19 |}, r')
    /\ List.concat r' = rest.
Proof.
  intros Ha Hp Hr. unfold deserializeAddress, bind, ret.
  take [4] (a ++ p ++ rest) Hr. rewrite Hrun.
  take a (p ++ rest) Hrest. rewrite Ha in *.
  take p rest Hrest0. rewrite Hp in *.
  change (at_ 0 [4] =? AddrType_value IPv4) with false.
  change (at_ 0 [4] =? AddrType_value IPv6) with true. cbv beta iota.
  rewrite Hrun0, Hrun1. simpl. eauto.
Qed.

Lemma deserializeAddress_DomainName (l : Z) (name p rest : list Z) (r : Reader) :
  List.length name = Z.to_nat l -> List.length p = 2%nat ->
  List.concat r = [3; l] ++ name ++ p ++ rest ->
  exists r',
    deserializeAddress r
    = (Ok {| hostname := decode name;
             port := shl (at_ 0 p) 8 + at_ 1 p;
             bytesRead := l + 4 |}, r')
    /\ List.concat r' = rest.
Proof.
  intros Hn Hp Hr. unfold deserializeAddress, bind, ret.
  take [3] ([l] ++ name ++ p ++ rest) Hr. rewrite Hrun.
  take [l] (name ++ p ++ rest) Hrest.
  take name (p ++ rest) Hrest0. rewrite Hn in *.
  take p rest Hrest1. rewrite Hp in *.
  change (at_ 0 [3] =? AddrType_value IPv4) with false.
  change (at_ 0 [3] =? AddrType_value IPv6) with false.
  change (at_ 0 [3] =? AddrType_value DomainName) with true. cbv beta iota.
  rewrite Hrun0. change (at_ 0 [l]) with l. rewrite Hrun1, Hrun2.
  simpl. replace (l + 1 + 3) with (l + 4) by lia. eauto.
Qed.

Lemma deserializeAddress_other (t : Z) (rest : list Z) (r : Reader) :
  t <> 1 -> t <> 3 -> t <> 4 ->
  List.concat r = [t] ++ rest ->
  exists r',
    deserializeAddress r
    = (Err (Error ("unexpected address type: " ++ String_of_Z t)), r')
    /\ List.concat r' = rest.
Proof.
  intros H1 H3 H4 Hr. unfold deserializeAddress, bind, throw.
  take [t] rest Hr. rewrite Hrun.
  change (at_ 0 [t]) with t. cbn [AddrType_value].
  destruct (Z.eqb_spec t 1); [contradiction|].
  destruct (Z.eqb_spec t 4); [contradiction|].
  destruct (Z.eqb_spec t 3); [contradiction|].
  cbv beta iota. eauto.
Qed.

(** A decoding that returns: the stream started with a whole address of the
    type its first byte names, and [bytesRead] is as that type has it. *)
Lemma deserializeAddress_Ok (r r' : Reader) (res : Address) :
  deserializeAddress r = (Ok res, r') ->
  (exists a p,
     List.length a = 4%nat /\ List.length p = 2%nat
     /\ List.concat r = [1] ++ a ++ p ++ List.concat r'
     /\ bytesRead res = 7)
  \/ (exists a p,
        List.length a = 16%nat /\ List.length p = 2%nat
        /\ List.concat r = [4] ++ a ++ p ++ List.concat r'
        /\ bytesRead res = 19)
  \/ (exists l name p,
        List.length name = Z.to_nat l /\ List.length p = 2%nat
        /\ List.concat r = [3; l] ++ name ++ p ++ List.concat r'
        /\ bytesRead res = l + 4).
Proof.
  unfold deserializeAddress. intros Hrun.
  apply bind_Ok in Hrun. destruct Hrun as (b & r1 & Hb & Hrun).
  apply readN_Ok in Hb. destruct Hb as [Hcat1 Hlen1].
  rewrite (singleton b Hlen1) in Hcat1. set (t := at_ 0 b) in *.
  apply bind_Ok in Hrun. destruct Hrun as (hn & r2 & Hhost & Hrun).
  apply bind_Ok in Hrun. destruct Hrun as (p & r3 & Hp & Hrun).
  apply readN_Ok in Hp. destruct Hp as [Hcat3 Hlen3].
  injection Hrun as <- <-. simpl bytesRead.
  destruct (Z.eqb_spec t (AddrType_value IPv4)) as [E1|_].
  - left. apply bind_Ok in Hhost. destruct Hhost as (a & r2' & Ha & Hret).
    injection Hret as <- <-. apply readN_Ok in Ha. destruct Ha as [Hcat2 Hlen2].
    exists a, p. repeat split; trivial.
    rewrite Hcat1, Hcat2, Hcat3, E1. reflexivity.
  - destruct (Z.eqb_spec t (AddrType_value IPv6)) as [E4|_].
    + right. left. apply bind_Ok in Hhost. destruct Hhost as (a & r2' & Ha & Hret).
      injection Hret as <- <-. apply readN_Ok in Ha. destruct Ha as [Hcat2 Hlen2].
      exists a, p. repeat split; trivial.
      rewrite Hcat1, Hcat2, Hcat3, E4. reflexivity.
    + destruct (Z.eqb_spec t (AddrType_value DomainName)) as [E3|_];
        [|discriminate].
      right. right. apply bind_Ok in Hhost. destruct Hhost as (l & r1' & Hl & Hhost).
      apply readN_Ok in Hl. destruct Hl as [Hcatl Hlenl].
      rewrite (singleton l Hlenl) in Hcatl.
      apply bind_Ok in Hhost. destruct Hhost as (name & r2' & Hn & Hret).
      injection Hret as <- <-. apply readN_Ok in Hn. destruct Hn as [Hcat2 Hlen2].
      exists (at_ 0 l), name, p. repeat split; trivial.
      * rewrite Hcat1, Hcatl, Hcat2, Hcat3, E3. reflexivity.
      * simpl. lia.
Qed.

(** Claim C9.  On a stream that holds a whole address, [deserializeAddress]
    returns [bytesRead] 7 for IPv4, 19 for IPv6 and [l + 4] for a domain
    name with length byte [l]: the size of the address part plus 3.  On a
    type byte other than 1, 3 and 4 it throws "unexpected address type: "
    followed by the byte.  Whenever it returns, [bytesRead] is one of these
    three, by the type byte, and is the number of bytes taken off the
    stream. *)
Theorem deserializeAddress_bytesRead (r : Reader) :
  (forall a p rest,
     List.length a = 4%nat -> List.length p = 2%nat ->
     List.concat r = [1] ++ a ++ p ++ rest ->
     exists res r',
       deserializeAddress r = (Ok res, r')
       /\ bytesRead res = 7 /\ List.concat r' = rest)
  /\ (forall a p rest,
        List.length a = 16%nat -> List.length p = 2%nat ->
        List.concat r = [4] ++ a ++ p ++ rest ->
        exists res r',
          deserializeAddress r = (Ok res, r')
          /\ bytesRead res = 19 /\ List.concat r' = rest)
  /\ (forall l name p rest,
        List.length name = Z.to_nat l -> List.length p = 2%nat ->
        List.concat r = [3; l] ++ name ++ p ++ rest ->
        exists res r',
          deserializeAddress r = (Ok res, r')
          /\ bytesRead res = l + 4 /\ List.concat r' = rest)
  /\ (forall t rest,
        t <> 1 -> t <> 3 -> t <> 4 ->
        List.concat r = [t] ++ rest ->
        exists r',
          deserializeAddress r
          = (Err (Error ("unexpected address type: " ++ String_of_Z t)), r'))
  /\ (forall res r',
        deserializeAddress r = (Ok res, r') ->
        Forall (fun b => 0 <= b < 256) (List.concat r) ->
        Z.of_nat (pending r) = bytesRead res + Z.of_nat (pending r')
        /\ exists t,
             nth_error (List.concat r) 0 = Some t
             /\ ((t = 1 /\ bytesRead res = 7)
                 \/ (t = 4 /\ bytesRead res = 19)
                 \/ (t = 3 /\ exists l,
                       nth_error (List.concat r) 1 = Some l
                       /\ bytesRead res = l + 4))).
Proof.
  split; [|split; [|split; [|split]]].
  - intros a p rest Ha Hp Hr.
    destruct (deserializeAddress_IPv4 a p rest r Ha Hp Hr) as (r' & -> & Hrest).
    eauto.
  - intros a p rest Ha Hp Hr.
    destruct (deserializeAddress_IPv6 a p rest r Ha Hp Hr) as (r' & -> & Hrest).
    eauto.
  - intros l name p rest Hn Hp Hr.
    destruct (deserializeAddress_DomainName l name p rest r Hn Hp Hr)
      as (r' & -> & Hrest).
    eauto.
  - intros t rest H1 H3 H4 Hr.
    destruct (deserializeAddress_other t rest r H1 H3 H4 Hr) as (r' & -> & _).
    eauto.
  - intros res r' Hrun Hrange. unfold pending.
    destruct (deserializeAddress_Ok r r' res Hrun)
      as [(a & p & Ha & Hp & Hcat & Hb)
         |[(a & p & Ha & Hp & Hcat & Hb)
          |(l & name & p & Hn & Hp & Hcat & Hb)]];
      rewrite Hcat in *; rewrite Hb.
    + split.
      * rewrite !length_app, Ha, Hp. simpl List.length. lia.
      * exists 1. split; [reflexivity|]. auto.
    + split.
      * rewrite !length_app, Ha, Hp. simpl List.length. lia.
      * exists 4. split; [reflexivity|]. auto.
    + assert (Hl : 0 <= l).
      { inversion Hrange as [|? ? _ Htl]; subst.
        inversion Htl as [|? ? Hl0 _]; subst. lia. }
      split.
      * rewrite !length_app, Hn, Hp. simpl List.length. lia.
      * exists 3. split; [reflexivity|]. right. right. split; [reflexivity|].
        exists l. split; reflexivity.
Qed.

End Decoding.

Lemma deserializeAddress_bytesRead_witness :
  (exists res r',
     @deserializeAddress plain_engine [[1; 127]; [0; 0; 1; 31]; [144; 9]]
     = (Ok res, r')
     /\ bytesRead res = 7 /\ List.concat r' = [9])
  /\ (exists res r',
        @deserializeAddress plain_engine
          [[3; 2; 104; 105; 0; 80]] = (Ok res, r')
        /\ bytesRead res = 2 + 4 /\ List.concat r' = [])
  /\ (exists r',
        @deserializeAddress plain_engine [[9; 127]]
        = (Err (Error ("unexpected address type: " ++ String_of_Z 9)), r'))
  /\ Z.of_nat (pending [[4; 32; 1; 13; 184; 0; 0; 0; 0; 0; 0];
                        [0; 0; 0; 0; 0; 1; 1; 187; 7; 7]])
     = 19 + Z.of_nat (pending [[7; 7]]).
Proof.
  split; [|split; [|split]].
  - apply (proj1 (@deserializeAddress_bytesRead plain_engine
                    [[1; 127]; [0; 0; 1; 31]; [144; 9]])
             [127; 0; 0; 1] [31; 144] [9]); reflexivity.
  - apply (proj1 (proj2 (proj2 (@deserializeAddress_bytesRead plain_engine
                                  [[3; 2; 104; 105; 0; 80]])))
             2 [104; 105] [0; 80] []); reflexivity.
  - apply (proj1 (proj2 (proj2 (proj2 (@deserializeAddress_bytesRead
                                         plain_engine [[9; 127]]))))
             9 [127]); try lia; reflexivity.
  - apply (proj2 (proj2 (proj2 (proj2 (@deserializeAddress_bytesRead
              plain_engine
              [[4; 32; 1; 13; 184; 0; 0; 0; 0; 0; 0];
               [0; 0; 0; 0; 0; 1; 1; 187; 7; 7]]))))
             {| hostname := "8193:3512:0:0:0:0:0:1"; port := 443;
                bytesRead := 19 |}
             [[7; 7]]).
    + reflexivity.
    + repeat constructor; lia.
Defined.

(* ------------------------------------------------------------------ *)
(** ** The address codec *)
(* ------------------------------------------------------------------ *)

(** *** Integers and bytes *)

Lemma ToInt32_small (z : Z) : - 2 ^ 31 <= z < 2 ^ 31 -> ToInt32 z = z.
Proof.
  intros Hz. unfold ToInt32. rewrite Z.mod_small; lia.
Qed.

Lemma shl_byte (b : Z) : 0 <= b < 256 -> shl b 8 = 256 * b.
Proof.
  intros Hb. unfold shl. rewrite (ToInt32_small b) by lia.
  rewrite Z.shiftl_mul_pow2 by lia. rewrite ToInt32_small; lia.
Qed.

Lemma shr_u16 (p : Z) : 0 <= p < 65536 -> shr p 8 = p / 256.
Proof.
  intros Hp. unfold shr. rewrite ToInt32_small by lia.
  rewrite Z.shiftr_div_pow2 by lia. reflexivity.
Qed.

(** A 16-bit port survives its two bytes. *)
Lemma port_bytes (p : Z) :
  0 <= p < 65536 ->
  shl (shr p 8 mod 256) 8 + Z.rem p 256 mod 256 = p.
Proof.
  intros Hp. rewrite shr_u16 by lia.
  assert (Hq : 0 <= p / 256 < 256).
  { split; [apply Z.div_pos; lia | apply Z.div_lt_upper_bound; lia]. }
  rewrite Z.rem_mod_nonneg by lia.
  rewrite (Z.mod_small (p / 256)) by lia.
  rewrite Z.mod_mod by lia.
  rewrite shl_byte by lia.
  rewrite (Z.div_mod p 256) at 3 by lia. reflexivity.
Qed.

Lemma groups16_be16 (buff : list Z) :
  Forall (fun b => 0 <= b < 256) buff ->
  Nat.even (List.length buff) = true ->
  groups16 buff = map Int (be16 buff).
Proof.
  revert buff.
  fix IH 1. intros [|hi [|lo rest]] Hrange Heven.
  - reflexivity.
  - discriminate.
  - inversion Hrange as [|? ? Hhi Hrest]; subst.
    inversion Hrest as [|? ? Hlo Hrest']; subst.
    simpl. rewrite shl_byte by lia. f_equal. apply IH; assumption.
Qed.

Lemma Uint8Array_from_bytes (bs : list Z) :
  Forall (fun b => 0 <= b < 256) bs -> Uint8Array_from (map Int bs) = bs.
Proof.
  unfold Uint8Array_from.
  induction 1 as [|b bs Hb _ IH]; simpl.
  - reflexivity.
  - rewrite IH. f_equal. apply Z.mod_small; lia.
Qed.

Lemma Uint8Array_from_range (xs : list number) :
  Forall (fun b => 0 <= b < 256) (Uint8Array_from xs).
Proof.
  induction xs as [|x xs IH]; simpl; constructor; trivial.
  destruct x; simpl; [lia|]. apply Z.mod_pos_bound. lia.
Qed.

(** *** Strings and patterns *)

Lemma append_nil_r (s : string) : (s ++ "")%string = s.
Proof. induction s as [|c s IH]; simpl; [reflexivity | now rewrite IH]. Qed.

Lemma append_assoc (s t u : string) :
  ((s ++ t) ++ u)%string = (s ++ (t ++ u))%string.
Proof. induction s as [|c s IH]; simpl; [reflexivity | now rewrite IH]. Qed.

Lemma length_append (s t : string) :
  String.length (s ++ t) = (String.length s + String.length t)%nat.
Proof. induction s as [|c s IH]; simpl; [reflexivity | now rewrite IH]. Qed.

(** *** The matcher and the language *)

Lemma ends_sound (r : regex) : forall s t,
  In t (ends r s) -> exists pre, s = (pre ++ t)%string /\ matches r pre.
Proof.
  induction r as [|p|r1 IH1 r2 IH2|r1 IH1 r2 IH2]; intros s t Hin; simpl in Hin.
  - destruct Hin as [<-|[]]. exists ""%string. split; [reflexivity|constructor].
  - destruct s as [|c s']; [contradiction|].
    destruct (p c) eqn:Hp; [|contradiction].
    destruct Hin as [<-|[]]. exists (String c ""). split; [reflexivity|].
    now constructor.
  - apply in_flat_map in Hin. destruct Hin as (m & Hm & Ht).
    destruct (IH1 _ _ Hm) as (pre1 & -> & M1).
    destruct (IH2 _ _ Ht) as (pre2 & -> & M2).
    exists (pre1 ++ pre2)%string. split; [now rewrite append_assoc|].
    now constructor.
  - apply in_app_or in Hin. destruct Hin as [Hin|Hin].
    + destruct (IH1 _ _ Hin) as (pre & -> & M). exists pre. split; trivial.
      now apply m_alt_l.
    + destruct (IH2 _ _ Hin) as (pre & -> & M). exists pre. split; trivial.
      now apply m_alt_r.
Qed.

Lemma ends_complete (r : regex) (pre : string) :
  matches r pre -> forall t, In t (ends r (pre ++ t)).
Proof.
  induction 1 as [|p c Hp|r1 r2 s1 s2 _ IH1 _ IH2|r1 r2 s _ IH|r1 r2 s _ IH];
    intros t; simpl.
  - now left.
  - rewrite Hp. now left.
  - apply in_flat_map. exists (s2 ++ t)%string. split.
    + rewrite append_assoc. apply IH1.
    + apply IH2.
  - apply in_or_app. left. apply IH.
  - apply in_or_app. right. apply IH.
Qed.

Lemma test_prefix (r : regex) (s : string) :
  test {| body := r; to_end := false |} s = true
  <-> exists pre t, s = (pre ++ t)%string /\ matches r pre.
Proof.
  unfold test. simpl. split.
  - destruct (ends r s) as [|t ts] eqn:He; [discriminate|]. intros _.
    destruct (ends_sound r s t) as (pre & Hs & M); [rewrite He; now left|].
    eauto.
  - intros (pre & t & -> & M). pose proof (ends_complete r pre M t) as Hin.
    destruct (ends r (pre ++ t)); [contradiction|reflexivity].
Qed.

Lemma test_whole (r : regex) (s : string) :
  test {| body := r; to_end := true |} s = true <-> matches r s.
Proof.
  unfold test. simpl. rewrite existsb_exists. split.
  - intros (t & Hin & Ht). destruct t; [|discriminate].
    destruct (ends_sound r s "" Hin) as (pre & -> & M).
    now rewrite append_nil_r.
  - intros M. exists ""%string. split; [|reflexivity].
    pose proof (ends_complete r s M "") as Hin. now rewrite append_nil_r in Hin.
Qed.

(** *** Bounded runs of one character set *)

Lemma matches_times (p : ascii -> bool) (n : nat) (g : string) :
  matches (times n (Chars p)) g
  <-> all_chars p g = true /\ String.length g = n.
Proof.
  revert g. induction n as [|n IH]; intros g; simpl.
  - split.
    + inversion 1. now split.
    + intros [_ Hl]. destruct g; [constructor|discriminate].
  - split.
    + inversion 1 as [| |r1 r2 s1 s2 M1 M2| |]; subst.
      inversion M1; subst. apply IH in M2. destruct M2 as [Ha Hl].
      simpl. rewrite Ha, Hl. split; [|reflexivity].
      now rewrite andb_true_r.
    + intros [Ha Hl]. destruct g as [|c g]; [discriminate|].
      simpl in Ha. apply andb_prop in Ha. destruct Ha as [Hc Ha].
      change (String c g) with (String c "" ++ g)%string.
      constructor; [now constructor|]. apply IH. split; trivial.
      now injection Hl.
Qed.

Lemma matches_upto (p : ascii -> bool) (n : nat) (g : string) :
  matches (upto n (Chars p)) g
  <-> all_chars p g = true /\ (String.length g <= n)%nat.
Proof.
  revert g. induction n as [|n IH]; intros g; simpl.
  - split.
    + inversion 1. now split.
    + intros [_ Hl]. destruct g; [constructor|simpl in Hl; lia].
  - split.
    + inversion 1 as [| | |r1 r2 s M|r1 r2 s M]; subst.
      * inversion M as [| |r1' r2' s1 s2 M1 M2| |]; subst.
        inversion M1; subst. apply IH in M2. destruct M2 as [Ha Hl].
        simpl. rewrite Ha. split; [now rewrite andb_true_r|lia].
      * inversion M. split; [reflexivity|simpl; lia].
    + intros [Ha Hl]. destruct g as [|c g].
      * apply m_alt_r. constructor.
      * simpl in Ha. apply andb_prop in Ha. destruct Ha as [Hc Ha].
        apply m_alt_l. change (String c g) with (String c "" ++ g)%string.
        constructor; [now constructor|]. apply IH. split; trivial.
        simpl in Hl. lia.
Qed.

Lemma all_chars_append (p : ascii -> bool) (s t : string) :
  all_chars p (s ++ t) = all_chars p s && all_chars p t.
Proof.
  induction s as [|c s IH]; simpl; [reflexivity|].
  now rewrite IH, andb_assoc.
Qed.

Lemma append_split_at (s : string) (n : nat) :
  (n <= String.length s)%nat ->
  exists s1 s2, s = (s1 ++ s2)%string /\ String.length s1 = n.
Proof.
  revert n. induction s as [|c s IH]; intros n Hn.
  - exists ""%string, ""%string. simpl in *. split; [reflexivity|lia].
  - destruct n as [|n].
    + exists ""%string, (String c s). now split.
    + destruct (IH n) as (s1 & s2 & -> & Hl); [simpl in Hn; lia|].
      exists (String c s1), s2. simpl. split; [reflexivity|now rewrite Hl].
Qed.

Lemma matches_between (p : ascii -> bool) (lo hi : nat) (g : string) :
  (lo <= hi)%nat ->
  (matches (between lo hi (Chars p)) g
   <-> all_chars p g = true /\ (lo <= String.length g <= hi)%nat).
Proof.
  intros Hlohi. unfold between. split.
  - inversion 1 as [| |r1 r2 s1 s2 M1 M2| |]; subst.
    apply matches_times in M1. apply matches_upto in M2.
    destruct M1 as [Ha1 Hl1], M2 as [Ha2 Hl2].
    rewrite all_chars_append, Ha1, Ha2, length_append. split; [reflexivity|lia].
  - intros [Ha Hl].
    destruct (append_split_at g lo) as (s1 & s2 & -> & Hl1); [lia|].
    rewrite all_chars_append in Ha. apply andb_prop in Ha.
    destruct Ha as [Ha1 Ha2]. rewrite length_append in Hl.
    constructor.
    + apply matches_times. now split.
    + apply matches_upto. split; [trivial|lia].
Qed.

(** *** Splitting *)

Lemma split_lacks (sep : ascii) (g : string) :
  lacks sep g = true -> split sep g = [g].
Proof.
  induction g as [|c g IH]; simpl; [reflexivity|].
  intros Hg. apply andb_prop in Hg. destruct Hg as [Hc Hg].
  apply negb_true_iff in Hc. rewrite Hc, (IH Hg). reflexivity.
Qed.

Lemma split_field (sep : ascii) (g rest : string) :
  lacks sep g = true ->
  split sep (g ++ String sep rest) = g :: split sep rest.
Proof.
  induction g as [|c g IH]; simpl.
  - intros _. now rewrite Ascii.eqb_refl.
  - intros Hg. apply andb_prop in Hg. destruct Hg as [Hc Hg].
    apply negb_true_iff in Hc. rewrite Hc, (IH Hg). reflexivity.
Qed.

Lemma all_chars_weaken (p q : ascii -> bool) (g : string) :
  (forall c, p c = true -> q c = true) ->
  all_chars p g = true -> all_chars q g = true.
Proof.
  intros Hpq. induction g as [|c g IH]; simpl; [reflexivity|].
  intros Hg. apply andb_prop in Hg. destruct Hg as [Hc Hg].
  now rewrite (Hpq c Hc), (IH Hg).
Qed.

Lemma digit_not_dot (c : ascii) : digit c = true -> negb (Ascii.eqb c ".") = true.
Proof.
  destruct (Ascii.eqb_spec c "."); [subst; discriminate|reflexivity].
Qed.

Lemma hex_not_colon (c : ascii) : hex_ci c = true -> negb (Ascii.eqb c ":") = true.
Proof.
  destruct (Ascii.eqb_spec c ":"); [subst; discriminate|reflexivity].
Qed.

(** *** Decimal numerals *)

Lemma digit_uint_of_char (c : ascii) (d : Decimal.uint) :
  digit c = true -> exists d', DecimalString.uint_of_char c (Some d) = Some d'.
Proof.
  destruct c as [[|] [|] [|] [|] [|] [|] [|] [|]]; try discriminate;
    intros _; simpl; eauto.
Qed.

Lemma digits_decimal_value (g : string) :
  all_chars digit g = true -> exists v, decimal_value g = Some v.
Proof.
  unfold decimal_value. induction g as [|c g IH]; simpl.
  - eauto.
  - intros Hg. apply andb_prop in Hg. destruct Hg as [Hc Hg].
    destruct (IH Hg) as (v & Hv).
    destruct (DecimalString.NilEmpty.uint_of_string g) as [d|]; [|discriminate].
    destruct (digit_uint_of_char c d Hc) as (d' & ->). simpl. eauto.
Qed.

Lemma decimal_value_String_of_Z (z : Z) :
  0 <= z -> decimal_value (String_of_Z z) = Some z.
Proof.
  intros Hz. unfold decimal_value, String_of_Z.
  destruct z as [|q|q]; [reflexivity| |lia].
  simpl Z.to_int. simpl DecimalString.NilZero.string_of_int.
  unfold DecimalString.NilZero.string_of_uint.
  pose proof (DecimalPos.Unsigned.to_uint_nonnil q) as Hnn.
  destruct (Pos.to_uint q) eqn:Hq; try contradiction;
    rewrite <- Hq; rewrite DecimalString.NilEmpty.usu; simpl;
    unfold N.of_uint; rewrite DecimalPos.Unsigned.of_to; reflexivity.
Qed.

Lemma byte_numerals : forallb byte_numeral_ok (seq 0 256) = true.
Proof. vm_compute. reflexivity. Qed.

Lemma String_of_byte (b : Z) :
  0 <= b < 256 ->
  all_chars digit (String_of_Z b) = true
  /\ (1 <= String.length (String_of_Z b) <= 3)%nat.
Proof.
  intros Hb. pose proof byte_numerals as Hall.
  rewrite forallb_forall in Hall.
  specialize (Hall (Z.to_nat b)).
  unfold byte_numeral_ok in Hall. rewrite Z2Nat.id in Hall by lia.
  assert (Hin : In (Z.to_nat b) (seq 0 256)) by (apply in_seq; lia).
  apply Hall in Hin. apply andb_prop in Hin. destruct Hin as [Hin H3].
  apply andb_prop in Hin. destruct Hin as [Hd H1].
  apply Nat.leb_le in H1, H3. auto.
Qed.

Lemma string_of_bytes_encode (s : string) : string_of_bytes (encode s) = s.
Proof.
  unfold string_of_bytes, encode. rewrite map_map.
  rewrite <- (string_of_list_ascii_of_string s) at 2. f_equal.
  induction (list_ascii_of_string s) as [|c cs IH]; simpl; [reflexivity|].
  rewrite IH, Nat2Z.id, ascii_nat_embedding. reflexivity.
Qed.

Lemma split_fields (sep : ascii) (gs : list string) (tail : string) :
  Forall (fun g => lacks sep g = true) gs ->
  split sep (fields sep gs tail) = gs ++ split sep tail.
Proof.
  induction 1 as [|g gs Hg _ IH]; simpl; [reflexivity|].
  now rewrite split_field, IH.
Qed.

Lemma join_fields (sep : ascii) (gs : list string) (g : string) :
  join (String sep "") (gs ++ [g]) = fields sep gs g.
Proof.
  unfold join. induction gs as [|g0 gs IH]; simpl; [reflexivity|].
  rewrite IH. destruct (gs ++ [g]) eqn:E; [now destruct gs|reflexivity].
Qed.

Lemma matches_hex_fields (n : nat) (s : string) :
  matches (times n (Cat (between 1 4 (Chars hex_ci)) (Chars (is_char ":")))) s ->
  exists gs,
    List.length gs = n /\ Forall hex_field gs /\ s = fields ":" gs "".
Proof.
  revert s. induction n as [|n IH]; intros s M; simpl in M.
  - inversion M. exists []. repeat split. constructor.
  - inversion M as [| |r1 r2 s1 s2 M1 M2| |]; subst.
    inversion M1 as [| |r1' r2' g c Mg Mc| |]; subst.
    inversion Mc as [|p ch Hch| | |]; subst.
    apply Ascii.eqb_eq in Hch. subst ch.
    apply matches_between in Mg; [|lia].
    destruct (IH _ M2) as (gs & Hl & Hf & ->).
    exists (g :: gs). simpl. rewrite Hl. repeat split; [now constructor|].
    now rewrite append_assoc.
Qed.

(** A hostname the IPv6 pattern accepts is eight colon-separated runs of
    one to four hexadecimal digits. *)
Lemma v6Pattern_fields (host : string) :
  test v6Pattern host = true ->
  exists gs,
    List.length gs = 8%nat /\ Forall hex_field gs /\ split ":" host = gs.
Proof.
  intros Ht. apply test_whole in Ht.
  inversion Ht as [| |r1 r2 s g8 Ms Mg| |]; subst.
  apply (matches_hex_fields 7) in Ms. destruct Ms as (gs & Hl & Hf & ->).
  apply matches_between in Mg; [|lia].
  assert (L8 : lacks ":" g8 = true).
  { apply all_chars_weaken with (p := hex_ci); [apply hex_not_colon|apply Mg]. }
  assert (L : Forall (fun g => lacks ":" g = true) gs).
  { eapply Forall_impl; [|exact Hf]. intros g [Hg _].
    apply all_chars_weaken with (p := hex_ci); [apply hex_not_colon|exact Hg]. }
  exists (gs ++ [g8]). repeat split.
  - rewrite length_app, Hl. reflexivity.
  - apply Forall_app. split; [exact Hf|]. constructor; [exact Mg|constructor].
  - assert (E : (fields ":" gs "" ++ g8)%string = fields ":" gs g8).
    { clear. induction gs as [|g gs IH]; simpl; [reflexivity|].
      rewrite append_assoc. simpl. now rewrite IH. }
    rewrite E, split_fields, split_lacks by assumption. reflexivity.
Qed.

(** *** Hexadecimal numerals *)

Lemma hex_digit_range (c : ascii) (d : Z) :
  hex_digit c = Some d -> 0 <= d < 16.
Proof.
  unfold hex_digit. set (n := Z.of_nat (nat_of_ascii c)).
  destruct (Z.leb_spec 48 n), (Z.leb_spec n 57); simpl;
    try (intros [= <-]; lia);
    destruct (Z.leb_spec 65 n), (Z.leb_spec n 70); simpl;
    try (intros [= <-]; lia);
    destruct (Z.leb_spec 97 n), (Z.leb_spec n 102); simpl;
    try (intros [= <-]; lia); discriminate.
Qed.

Lemma hex_value_from_range (g : string) : forall acc,
  all_chars hex_ci g = true ->
  exists w,
    hex_value_from acc g = Some (acc * 16 ^ Z.of_nat (String.length g) + w)
    /\ 0 <= w < 16 ^ Z.of_nat (String.length g).
Proof.
  induction g as [|c g IH]; intros acc Hg.
  - exists 0. simpl. split; [f_equal; lia|lia].
  - simpl in Hg. apply andb_prop in Hg. destruct Hg as [Hc Hg].
    unfold hex_ci in Hc. destruct (hex_digit c) as [d|] eqn:Hd; [|discriminate].
    apply hex_digit_range in Hd as Hrange.
    destruct (IH (16 * acc + d) Hg) as (w & Hw & Hwr).
    cbn [hex_value_from String.length]. rewrite Hd, Hw.
    rewrite Nat2Z.inj_succ, Z.pow_succ_r by lia.
    set (k := 16 ^ Z.of_nat (String.length g)) in *.
    exists (d * k + w). split; [f_equal; ring|]. nia.
Qed.

Lemma hex_field_value (g : string) :
  hex_field g -> exists v, hex_value g = Some v /\ 0 <= v < 65536.
Proof.
  intros [Hg Hl]. destruct (hex_value_from_range g 0 Hg) as (w & Hw & Hwr).
  exists w. unfold hex_value. rewrite Hw. split; [f_equal; lia|].
  assert (16 ^ Z.of_nat (String.length g) <= 16 ^ 4)
    by (apply Z.pow_le_mono_r; lia).
  lia.
Qed.

Lemma hex_fields_values (gs : list string) :
  Forall hex_field gs ->
  exists vs,
    map hex_value gs = map Some vs
    /\ Forall (fun v => 0 <= v < 65536) vs.
Proof.
  induction 1 as [|g gs Hg _ (vs & Hvs & Hr)].
  - exists []. split; constructor.
  - destruct (hex_field_value g Hg) as (v & Hv & Hvr).
    exists (v :: vs). simpl. rewrite Hv, Hvs. split; [reflexivity|].
    now constructor.
Qed.

Lemma group_bytes_length (vs : list Z) :
  List.length (group_bytes vs) = (2 * List.length vs)%nat.
Proof. induction vs as [|v vs IH]; simpl; [reflexivity|]. rewrite IH. lia. Qed.

Lemma group_bytes_range (vs : list Z) :
  Forall (fun v => 0 <= v < 65536) vs ->
  Forall (fun b => 0 <= b < 256) (group_bytes vs).
Proof.
  induction 1 as [|v vs Hv _ IH]; simpl; [constructor|].
  constructor; [|constructor; [|exact IH]].
  - split; [apply Z.div_pos; lia|apply Z.div_lt_upper_bound; lia].
  - apply Z.mod_pos_bound. lia.
Qed.

Lemma be16_group_bytes (vs : list Z) : be16 (group_bytes vs) = vs.
Proof.
  induction vs as [|v vs IH]; simpl; [reflexivity|].
  rewrite IH. f_equal. rewrite (Z.div_mod v 256) at 3 by lia. reflexivity.
Qed.

(** *** The encoder, the decoder and the round trip *)

Section CodecFacts.
Context `{Engine}.

Lemma serializeAddress_range (h : string) (p : Z) :
  Forall (fun b => 0 <= b < 256) (serializeAddress h p).
Proof.
  unfold serializeAddress.
  destruct (test v4Pattern h); [apply Uint8Array_from_range|].
  destruct (test v6Pattern h); apply Uint8Array_from_range.
Qed.

(** What the IPv6 branch of the decoder does: the eight big-endian groups,
    as decimal numerals joined by colons. *)
Lemma deserializeAddress_IPv6_decimal (a p rest : list Z) (r : Reader) :
  List.length a = 16%nat -> List.length p = 2%nat ->
  Forall (fun b => 0 <= b < 256) a ->
  List.concat r = [4] ++ a ++ p ++ rest ->
  exists r',
    deserializeAddress r
    = (Ok {| hostname := colon_decimal (be16 a);
             port := shl (at_ 0 p) 8 + at_ 1 p;
             bytesRead := 19 |}, r')
    /\ List.concat r' = rest.
Proof.
  intros Ha Hp Hrange Hr.
  destruct (deserializeAddress_IPv6 a p rest r Ha Hp Hr) as (r' & Hrun & Hrest).
  exists r'. split; [|exact Hrest].
  rewrite Hrun, groups16_be16 by (trivial; rewrite Ha; reflexivity).
  unfold colon_decimal. rewrite map_map. reflexivity.
Qed.

Lemma Number_digits (g : string) (v : Z) :
  (1 <= String.length g <= 15)%nat ->
  decimal_value g = Some v -> Number g = Int v.
Proof.
  intros Hl Hv. unfold Number. destruct g as [|c g]; [simpl in Hl; lia|].
  destruct (Nat.leb_spec (String.length (String c g)) 15); [|lia].
  now rewrite Hv.
Qed.

(** The pattern accepts four dot-separated runs of one to three digits,
    whatever follows them. *)
Lemma v4Pattern_accepts (g1 g2 g3 g4 rest : string) :
  (forall g, In g [g1; g2; g3; g4] ->
     all_chars digit g = true /\ (1 <= String.length g <= 3)%nat) ->
  test v4Pattern (g1 ++ "." ++ g2 ++ "." ++ g3 ++ "." ++ g4 ++ rest) = true.
Proof.
  intros Hg. apply test_prefix.
  exists (g1 ++ "." ++ g2 ++ "." ++ g3 ++ "." ++ g4)%string, rest.
  split; [now rewrite !append_assoc|].
  assert (M : forall g, In g [g1; g2; g3; g4] ->
                        matches (between 1 3 (Chars digit)) g).
  { intros g Hin. apply matches_between; [lia|]. now apply Hg. }
  assert (D : matches (Chars (is_char ".")) ".") by now constructor.
  replace (g1 ++ "." ++ g2 ++ "." ++ g3 ++ "." ++ g4)%string
    with (((g1 ++ ".") ++ (g2 ++ ".") ++ (g3 ++ ".") ++ "") ++ g4)%string
    by now rewrite !append_assoc.
  repeat constructor; try apply M; simpl; auto.
Qed.

(** Four dot-separated runs of one to three digits, and nothing else: the
    type byte, the four values modulo 256 and the port. *)
Lemma serializeAddress_IPv4_four_groups (g1 g2 g3 g4 : string)
  (v1 v2 v3 v4 p : Z) :
  (forall g, In g [g1; g2; g3; g4] ->
     all_chars digit g = true /\ (1 <= String.length g <= 3)%nat) ->
  decimal_value g1 = Some v1 -> decimal_value g2 = Some v2 ->
  decimal_value g3 = Some v3 -> decimal_value g4 = Some v4 ->
  serializeAddress (g1 ++ "." ++ g2 ++ "." ++ g3 ++ "." ++ g4) p
  = [1; v1 mod 256; v2 mod 256; v3 mod 256; v4 mod 256;
     shr p 8 mod 256; Z.rem p 256 mod 256].
Proof.
  intros Hg V1 V2 V3 V4. unfold serializeAddress.
  pose proof (v4Pattern_accepts g1 g2 g3 g4 "" Hg) as Ht.
  rewrite append_nil_r in Ht. rewrite Ht.
  assert (L : forall g, In g [g1; g2; g3; g4] -> lacks "." g = true).
  { intros g Hin. apply all_chars_weaken with (p := digit).
    - apply digit_not_dot.
    - now apply Hg. }
  change ("." ++ g2 ++ "." ++ g3 ++ "." ++ g4)%string
    with (String "." (g2 ++ String "." (g3 ++ String "." g4))).
  rewrite !split_field, split_lacks by (apply L; simpl; auto).
  assert (N : forall g v, In g [g1; g2; g3; g4] ->
                          decimal_value g = Some v -> Number g = Int v).
  { intros g v Hin Hv. apply Number_digits; [|exact Hv].
    destruct (Hg g Hin) as [_ Hl]. lia. }
  simpl map.
  rewrite (N g1 v1), (N g2 v2), (N g3 v3), (N g4 v4) by (simpl; auto).
  reflexivity.
Qed.

Lemma encode_range (s : string) : Forall (fun b => 0 <= b < 256) (encode s).
Proof.
  unfold encode. induction (list_ascii_of_string s) as [|c cs IH]; simpl.
  - constructor.
  - constructor; [|exact IH].
    pose proof (nat_ascii_bounded c). lia.
Qed.

(** The domain-name branch of the encoder. *)
Lemma serializeAddress_DomainName (host : string) (p : Z) :
  test v4Pattern host = false ->
  test v6Pattern host = false ->
  serializeAddress host p
  = [3; Z.of_nat (List.length (encode host)) mod 256]
    ++ encode host
    ++ [shr p 8 mod 256; Z.rem p 256 mod 256].
Proof.
  intros H4 H6. unfold serializeAddress. rewrite H4, H6.
  unfold Uint8Array_from. rewrite !map_app, map_map. simpl.
  do 2 f_equal.
  fold (Uint8Array_from (map Int (encode host))).
  change (map (fun x => ToUint8 (Int x)) (encode host))
    with (map (fun x => x mod 256) (encode host)).
  f_equal. pose proof (encode_range host) as Hr.
  induction Hr as [|b bs Hb _ IH]; simpl; [reflexivity|].
  rewrite IH. f_equal. apply Z.mod_small. lia.
Qed.

(** Property X4.  Round trip, IPv4: four octets in dotted-decimal text and a
    16-bit port come back as they were, however the reads cut the bytes. *)
Lemma roundtrip_IPv4 (a b c d p : Z) (rest : list Z) (r : Reader) :
  0 <= a < 256 -> 0 <= b < 256 -> 0 <= c < 256 -> 0 <= d < 256 ->
  0 <= p < 65536 ->
  List.concat r = serializeAddress (ipv4_text a b c d) p ++ rest ->
  exists r',
    deserializeAddress r
    = (Ok {| hostname := ipv4_text a b c d; port := p; bytesRead := 7 |}, r')
    /\ List.concat r' = rest.
Proof.
  intros Ha Hb Hc Hd Hp Hr.
  assert (Hs : serializeAddress (ipv4_text a b c d) p
               = [1; a; b; c; d; shr p 8 mod 256; Z.rem p 256 mod 256]).
  { change (ipv4_text a b c d)
      with (String_of_Z a ++ "." ++ String_of_Z b ++ "."
            ++ String_of_Z c ++ "." ++ String_of_Z d)%string.
    rewrite (serializeAddress_IPv4_four_groups
               (String_of_Z a) (String_of_Z b) (String_of_Z c) (String_of_Z d)
               a b c d p).
    - rewrite !Z.mod_small by lia. reflexivity.
    - intros g [<-|[<-|[<-|[<-|[]]]]]; now apply String_of_byte.
    - apply decimal_value_String_of_Z; lia.
    - apply decimal_value_String_of_Z; lia.
    - apply decimal_value_String_of_Z; lia.
    - apply decimal_value_String_of_Z; lia. }
  rewrite Hs in Hr.
  destruct (deserializeAddress_IPv4 [a; b; c; d]
              [shr p 8 mod 256; Z.rem p 256 mod 256] rest r)
    as (r' & Hrun & Hrest); trivial.
  exists r'. split; [|exact Hrest]. rewrite Hrun.
  change (at_ 0 [shr p 8 mod 256; Z.rem p 256 mod 256]) with (shr p 8 mod 256).
  change (at_ 1 [shr p 8 mod 256; Z.rem p 256 mod 256]) with (Z.rem p 256 mod 256).
  rewrite port_bytes by lia. reflexivity.
Qed.

(** Property X5.  Round trip, domain names: a hostname that matches neither
    pattern, of at most 255 bytes of well-formed UTF-8 with no byte-order
    mark in front, and a 16-bit port come back as they were. *)
Lemma roundtrip_DomainName (host : string) (p : Z) (rest : list Z) (r : Reader) :
  test v4Pattern host = false -> test v6Pattern host = false ->
  (List.length (encode host) <= 255)%nat ->
  utf8_wf (encode host) = true ->
  strip_bom (encode host) = encode host ->
  0 <= p < 65536 ->
  List.concat r = serializeAddress host p ++ rest ->
  exists r',
    deserializeAddress r
    = (Ok {| hostname := host; port := p;
             bytesRead := Z.of_nat (List.length (encode host)) + 4 |}, r')
    /\ List.concat r' = rest.
Proof.
  intros H4 H6 Hlen Hwf Hbom Hp Hr.
  rewrite serializeAddress_DomainName in Hr by assumption.
  rewrite Z.mod_small in Hr by lia.
  rewrite <- !app_assoc in Hr.
  destruct (deserializeAddress_DomainName
              (Z.of_nat (List.length (encode host))) (encode host)
              [shr p 8 mod 256; Z.rem p 256 mod 256] rest r)
    as (r' & Hrun & Hrest); trivial.
  { now rewrite Nat2Z.id. }
  exists r'. split; [|exact Hrest]. rewrite Hrun.
  unfold decode. rewrite Hwf, Hbom, string_of_bytes_encode.
  change (at_ 0 [shr p 8 mod 256; Z.rem p 256 mod 256]) with (shr p 8 mod 256).
  change (at_ 1 [shr p 8 mod 256; Z.rem p 256 mod 256]) with (Z.rem p 256 mod 256).
  rewrite port_bytes by lia. reflexivity.
Qed.

Lemma serialized_groups (gs : list string) (vs : list Z) :
  Forall hex_field gs ->
  map hex_value gs = map Some vs ->
  Forall (fun v => 0 <= v < 65536) vs ->
  map ToUint8
    (flat_map (fun x => [shr_num (parseInt16 x) 8; rem_num (parseInt16 x) 256])
              gs)
  = group_bytes vs.
Proof.
  intros Hf. revert vs. induction Hf as [|g gs Hg _ IH]; intros vs Hv Hr.
  - destruct vs; [reflexivity|discriminate].
  - destruct vs as [|v vs]; [discriminate|].
    simpl in Hv. injection Hv as Hv Hvs.
    inversion Hr as [|? ? Hvr Hr']; subst.
    cbn [flat_map]. rewrite map_app, (IH vs Hvs Hr').
    unfold parseInt16. destruct Hg as [_ Hl].
    destruct (Nat.leb_spec 1 (String.length g)); [|lia].
    destruct (Nat.leb_spec (String.length g) 13); [|lia].
    simpl andb. cbv iota. rewrite Hv.
    cbn [shr_num rem_num ToUint8 app map group_bytes flat_map].
    rewrite shr_u16 by lia.
    rewrite Z.rem_mod_nonneg by lia.
    rewrite Z.mod_mod by lia.
    rewrite (Z.mod_small (v / 256)); [reflexivity|].
    split; [apply Z.div_pos; lia|apply Z.div_lt_upper_bound; lia].
Qed.

(** What the codec does with an IPv6 hostname: the wire carries its eight
    groups, two bytes each, and the decoder returns them as decimal
    numerals joined by colons. *)
Lemma roundtrip_IPv6_decimal (host : string) (p : Z) :
  test v4Pattern host = false ->
  test v6Pattern host = true ->
  0 <= p < 65536 ->
  exists vs,
    ipv6_groups host = map Some vs
    /\ List.length vs = 8%nat
    /\ serializeAddress host p
       = [4] ++ group_bytes vs ++ [shr p 8 mod 256; Z.rem p 256 mod 256]
    /\ forall rest r,
         List.concat r = serializeAddress host p ++ rest ->
         exists r',
           deserializeAddress r
           = (Ok {| hostname := colon_decimal vs; port := p;
                    bytesRead := 19 |}, r')
           /\ List.concat r' = rest.
Proof.
  intros H4 H6 Hp.
  destruct (v6Pattern_fields host H6) as (gs & Hl & Hf & Hsplit).
  destruct (hex_fields_values gs Hf) as (vs & Hvs & Hr).
  assert (Hlv : List.length vs = 8%nat).
  { rewrite <- Hl, <- (length_map hex_value gs), Hvs. symmetry. apply length_map. }
  assert (Hs : serializeAddress host p
               = [4] ++ group_bytes vs
                 ++ [shr p 8 mod 256; Z.rem p 256 mod 256]).
  { unfold serializeAddress. rewrite H4, H6, Hsplit. cbv zeta.
    unfold Uint8Array_from. rewrite !map_app.
    rewrite (serialized_groups gs vs Hf Hvs Hr). reflexivity. }
  exists vs. split; [|split; [exact Hlv|split; [exact Hs|]]].
  - unfold ipv6_groups. now rewrite Hsplit.
  - intros rest r Hcat. rewrite Hs, <- !app_assoc in Hcat.
    destruct (deserializeAddress_IPv6_decimal (group_bytes vs)
                [shr p 8 mod 256; Z.rem p 256 mod 256] rest r)
      as (r' & Hrun & Hrest); trivial.
    + rewrite group_bytes_length, Hlv. reflexivity.
    + now apply group_bytes_range.
    + exists r'. split; [|exact Hrest]. rewrite Hrun, be16_group_bytes.
      change (at_ 0 [shr p 8 mod 256; Z.rem p 256 mod 256])
        with (shr p 8 mod 256).
      change (at_ 1 [shr p 8 mod 256; Z.rem p 256 mod 256])
        with (Z.rem p 256 mod 256).
      rewrite port_bytes by lia. reflexivity.
Qed.

(** Claim C4, where the code departs from it.  For the address
    2001:db8::1 on the wire the decoder forms the eight big-endian groups
    and reports 16 + 3 bytes, but renders the groups in decimal:
    "8193:3512:0:0:0:0:0:1" where the hexadecimal rendering is
    "2001:db8:0:0:0:0:0:1". *)
Theorem deserializeAddress_IPv6_renders_decimal :
  let a := [32; 1; 13; 184; 0; 0; 0; 0; 0; 0; 0; 0; 0; 0; 0; 1] in
  be16 a = [8193; 3512; 0; 0; 0; 0; 0; 1]
  /\ colon_hex (be16 a) = "2001:db8:0:0:0:0:0:1"%string
  /\ deserializeAddress [[4] ++ a ++ [1; 187]]
     = (Ok {| hostname := "8193:3512:0:0:0:0:0:1";
              port := 443;
              bytesRead := 19 |}, []).
Proof.
  intros a. repeat split.
Qed.

(** Claim C1, where the code departs from it.  The hostname
    2001:db8:0:0:0:0:0:1 is serialized as an IPv6 address carrying its
    groups, and decodes to "8193:3512:0:0:0:0:0:1", whose groups as an IPv6
    hostname are 0x8193, 0x3512, ...: not those of the hostname that was
    serialized. *)
Theorem roundtrip_IPv6_differs :
  let host := "2001:db8:0:0:0:0:0:1"%string in
  test v6Pattern host = true
  /\ ipv6_groups host = map Some [8193; 3512; 0; 0; 0; 0; 0; 1]
  /\ roundtrip host 443
     = (Ok {| hostname := "8193:3512:0:0:0:0:0:1";
              port := 443;
              bytesRead := 19 |}, [])
  /\ ipv6_groups "8193:3512:0:0:0:0:0:1"
     = map Some [33171; 13586; 0; 0; 0; 0; 0; 1]
  /\ ipv6_groups "8193:3512:0:0:0:0:0:1" <> ipv6_groups host.
Proof.
  intros host. repeat split. discriminate.
Qed.

(** Claim C8, where the code departs from it.  The hostname "1.2.3.4.5"
    matches the IPv4 pattern, which has no end anchor, and is serialized
    with one octet for each of its five groups. *)
Theorem serializeAddress_IPv4_five_octets :
  test v4Pattern "1.2.3.4.5" = true
  /\ serializeAddress "1.2.3.4.5" 80 = [1; 1; 2; 3; 4; 5; 0; 80].
Proof.
  split; reflexivity.
Qed.

(** Claim C2, as the code has it.  A hostname that matches neither pattern
    is serialized as a domain name whatever its length: type byte 3, the
    UTF-8 length modulo 256, all the UTF-8 bytes, and the port.  Past 255
    bytes the length byte is no longer the length of the name. *)
Theorem serializeAddress_DomainName_wraps (host : string) (p : Z) :
  test v4Pattern host = false ->
  test v6Pattern host = false ->
  let len := Z.of_nat (List.length (encode host)) in
  serializeAddress host p
  = [3; len mod 256] ++ encode host ++ [shr p 8 mod 256; Z.rem p 256 mod 256]
  /\ ((255 < List.length (encode host))%nat -> len mod 256 <> len).
Proof.
  intros H4 H6 len. split.
  - now apply serializeAddress_DomainName.
  - intros Hlong Heq. pose proof (Z.mod_pos_bound len 256). lia.
Qed.

End CodecFacts.

Lemma serializeAddress_DomainName_wraps_witness :
  let len := Z.of_nat (List.length (encode long_name)) in
  @serializeAddress plain_engine long_name 80
  = [3; len mod 256] ++ encode long_name
    ++ [shr 80 8 mod 256; Z.rem 80 256 mod 256]
  /\ ((255 < List.length (encode long_name))%nat -> len mod 256 <> len).
Proof.
  apply (@serializeAddress_DomainName_wraps plain_engine long_name 80);
    vm_compute; reflexivity.
Defined.

(** Claim C2 as stated fails: a domain name of 256 bytes is serialized, with
    length byte 0. *)
Lemma serializeAddress_long_name_accepted :
  test v4Pattern long_name = false
  /\ test v6Pattern long_name = false
  /\ (255 < List.length (encode long_name))%nat
  /\ @serializeAddress plain_engine long_name 80
     = [3; 0] ++ repeat 97 256 ++ [0; 80].
Proof.
  split; [|split; [|split]]; vm_compute; reflexivity.
Qed.

(* ------------------------------------------------------------------ *)
(** ** The handshake *)
(* ------------------------------------------------------------------ *)

Lemma on_conn_readN (pre rest : list Z) (c : Conn) :
  List.concat (incoming c) = pre ++ rest ->
  exists r',
    on_conn (readN (List.length pre)) c = (Ok pre, with_incoming r' c)
    /\ List.concat r' = rest.
Proof.
  intros Hr. destruct (readN_prefix pre rest _ Hr) as (r' & Hrun & Hrest).
  exists r'. unfold on_conn. rewrite Hrun. auto.
Qed.

Lemma on_conn_readN_eof (n : nat) (c : Conn) :
  (pending (incoming c) < n)%nat ->
  on_conn (readN n) c
  = (Err (UnexpectedEof (eof_message (n - pending (incoming c)))),
     with_incoming [] c).
Proof.
  intros Hshort. unfold on_conn. unfold pending in *.
  rewrite readN_eof by exact Hshort. reflexivity.
Qed.

Lemma try_close_run (c : Conn) : try_close c = (Ok tt, closed_once c).
Proof. reflexivity. Qed.

Lemma writeAll_run (bytes : list Z) (c : Conn) :
  writeAll bytes c = (Ok tt, sent bytes c).
Proof. reflexivity. Qed.

Lemma grows_ret {A} (a : A) : grows (ret a).
Proof. intros c. exists []. simpl. now rewrite app_nil_r. Qed.

Lemma grows_throw {A} (e : error) : grows (@throw Conn A e).
Proof. intros c. exists []. simpl. now rewrite app_nil_r. Qed.

Lemma grows_on_conn {A} (m : M Reader A) : grows (on_conn m).
Proof.
  intros c. exists []. unfold on_conn. destruct (m (incoming c)). simpl.
  now rewrite app_nil_r.
Qed.

Lemma grows_writeAll (bytes : list Z) : grows (writeAll bytes).
Proof. intros c. exists [bytes]. reflexivity. Qed.

Lemma grows_try_close : grows try_close.
Proof. intros c. exists []. simpl. now rewrite app_nil_r. Qed.

Lemma grows_bind {A B} (m : M Conn A) (k : A -> M Conn B) :
  grows m -> (forall a, grows (k a)) -> grows (bind m k).
Proof.
  intros Hm Hk c. unfold bind. destruct (Hm c) as (t1 & Ht1).
  destruct (m c) as [[a|e] c1]; simpl in Ht1.
  - destruct (Hk a c1) as (t2 & Ht2). exists (t1 ++ t2).
    rewrite Ht2, Ht1. now rewrite app_assoc.
  - exists t1. exact Ht1.
Qed.

Lemma grows_if {A} (b : bool) (m1 m2 : M Conn A) :
  grows m1 -> grows m2 -> grows (if b then m1 else m2).
Proof. destruct b; auto. Qed.

Create HintDb grows_db.
#[local] Hint Resolve grows_ret grows_throw grows_on_conn grows_writeAll
  grows_try_close grows_if : grows_db.

Ltac grows_tac :=
  repeat first
    [ apply grows_bind; [|intros ?]
    | apply grows_if
    | solve [auto with grows_db] ].

Lemma grows_run {A} (m : M Conn A) (c c' : Conn) (res : result A) :
  grows m -> m c = (res, c') -> exists tail, outgoing c' = outgoing c ++ tail.
Proof.
  intros Hm Hrun. destruct (Hm c) as (tail & Ht). rewrite Hrun in Ht. eauto.
Qed.

Lemma on_conn_outgoing {A} (m : M Reader A) (c c' : Conn) (res : result A) :
  on_conn m c = (res, c') -> outgoing c' = outgoing c.
Proof.
  unfold on_conn. destruct (m (incoming c)). intros [= _ <-]. reflexivity.
Qed.

(** Steps of a run of the handshake.  [send] runs the [writeAll] in front;
    [recv pre rest Hr] runs the [readN] in front, which returns [pre] by the
    proof [Hr] that the stream starts with it; [pass] takes a check that
    does not throw. *)
Ltac send := unfold bind at 1; rewrite writeAll_run.

Ltac recv pre rest Hr :=
  match goal with
  | |- context [bind (on_conn (readN _)) _ ?c] =>
      let r := fresh "r" in
      let Hrun := fresh "Hrun" in
      let Hrest := fresh "Hrest" in
      destruct (on_conn_readN pre rest c Hr) as (r & Hrun & Hrest);
      simpl List.length in Hrun;
      unfold bind at 1; rewrite Hrun; clear Hrun;
      cbn [at_ nth]
  end.

Ltac checks :=
  repeat match goal with
         | |- context [?x =? SOCKS_VERSION] =>
             change (x =? SOCKS_VERSION) with (x =? 5)
         | |- context [?x =? USERNAME_PASSWORD_AUTH_VERSION] =>
             change (x =? USERNAME_PASSWORD_AUTH_VERSION) with (x =? 1)
         end;
  cbn [AuthMethod_value ReplyStatus_value Z.eqb Pos.eqb negb orb].

Ltac pass := checks; unfold bind at 1; unfold ret at 1.

Ltac done_run := eexists; split; [reflexivity | eassumption].

Section HandshakeRuns.
Context `{Engine}.

Lemma greeting_sent (this : Client) :
  Uint8Array_from
    ([Int SOCKS_VERSION; Int (Z.of_nat (List.length (methods_of this)))]
     ++ map Int (methods_of this))
  = greeting this.
Proof.
  unfold methods_of, has_username, greeting.
  destruct (config_auth this); reflexivity.
Qed.

Lemma auth_sent (this : Client) (a : AuthConfig) :
  config_auth this = Some a ->
  Uint8Array_from
    ([Int USERNAME_PASSWORD_AUTH_VERSION;
      Int (Z.of_nat (List.length (encode_field username this)))]
     ++ map Int (encode_field username this)
     ++ [Int (Z.of_nat (List.length (encode_field password this)))]
     ++ map Int (encode_field password this))
  = auth_message a.
Proof.
  intros Ha. unfold encode_field, auth_message. rewrite Ha.
  unfold Uint8Array_from. rewrite !map_app.
  fold (Uint8Array_from (map Int (encode (username a)))).
  fold (Uint8Array_from (map Int (encode (password a)))).
  rewrite !Uint8Array_from_bytes by apply encode_range. reflexivity.
Qed.

Lemma request_sent (cmd : Command) (h : string) (p : Z) :
  Uint8Array_from
    ([Int SOCKS_VERSION; Int (Command_value cmd); Int 0]
     ++ map Int (serializeAddress h p))
  = request cmd h p.
Proof.
  unfold request. unfold Uint8Array_from. rewrite map_app.
  fold (Uint8Array_from (map Int (serializeAddress h p))).
  rewrite Uint8Array_from_bytes by apply serializeAddress_range.
  destruct cmd; reflexivity.
Qed.

(** **** What is written *)



Lemma connectAndRequest_Ok_outgoing (this : Client) (cmd : Command)
  (h : string) (p : Z) (c c' : Conn) (a : Address) :
  connectAndRequest this cmd h p c = (Ok a, c') ->
  exists mid,
    outgoing c' = outgoing c ++ [greeting this] ++ mid ++ [request cmd h p].
Proof.
  unfold connectAndRequest. intros Hrun.
  apply bind_Ok in Hrun. destruct Hrun as ([] & c1 & Hw1 & Hrun).
  rewrite writeAll_run, greeting_sent in Hw1. injection Hw1 as <-.
  apply bind_Ok in Hrun. destruct Hrun as (b & c2 & Hr1 & Hrun).
  apply on_conn_outgoing in Hr1.
  apply bind_Ok in Hrun. destruct Hrun as ([] & c3 & Hg1 & Hrun).
  apply grows_run in Hg1; [|grows_tac]. destruct Hg1 as (t3 & Ht3).
  apply bind_Ok in Hrun. destruct Hrun as ([] & c4 & Hauth & Hrun).
  apply grows_run in Hauth; [|grows_tac]. destruct Hauth as (t4 & Ht4).
  apply bind_Ok in Hrun. destruct Hrun as ([] & c5 & Hw2 & Hrun).
  rewrite writeAll_run, request_sent in Hw2. injection Hw2 as <-.
  apply bind_Ok in Hrun. destruct Hrun as (r & c6 & Hr2 & Hrun).
  apply on_conn_outgoing in Hr2.
  apply bind_Ok in Hrun. destruct Hrun as ([] & c7 & Hg2 & Hrun).
  assert (Hc7 : outgoing c7 = outgoing c6).
  { destruct (negb (at_ 0 r =? SOCKS_VERSION)
              || negb (at_ 1 r =? ReplyStatus_value Success)).
    - discriminate.
    - injection Hg2 as <-. reflexivity. }
  apply on_conn_outgoing in Hrun.
  exists (t3 ++ t4).
  rewrite Hrun, Hc7, Hr2. simpl outgoing. rewrite Ht4, Ht3, Hr1. simpl outgoing.
  rewrite <- !app_assoc. reflexivity.
Qed.

(** **** The runs that close the connection *)

(** The proxy answers with another version. *)
Lemma connectAndRequest_version (this : Client) (cmd : Command) (h : string)
  (p : Z) (c : Conn) (v m : Z) (rest : list Z) :
  v <> 5 ->
  List.concat (incoming c) = [v; m] ++ rest ->
  exists r',
    connectAndRequest this cmd h p c
    = (Err (Error ("unsupported SOCKS version number: " ++ String_of_Z v)),
       closed_once (with_incoming r' (sent (greeting this) c)))
    /\ List.concat r' = rest.
Proof.
  intros Hv Hr. unfold connectAndRequest. send. rewrite greeting_sent.
  recv [v; m] rest Hr. checks.
  destruct (Z.eqb_spec v 5); [contradiction|]. done_run.
Qed.

(** The proxy accepts none of the methods. *)
Lemma connectAndRequest_rejected (this : Client) (cmd : Command) (h : string)
  (p : Z) (c : Conn) (rest : list Z) :
  List.concat (incoming c) = [5; 255] ++ rest ->
  exists r',
    connectAndRequest this cmd h p c
    = (Err (Error "no acceptable authentication methods"),
       closed_once (with_incoming r' (sent (greeting this) c)))
    /\ List.concat r' = rest.
Proof.
  intros Hr. unfold connectAndRequest. send. rewrite greeting_sent.
  recv [5; 255] rest Hr. done_run.
Qed.

(** The proxy asks for the credentials and refuses them. *)
Lemma connectAndRequest_auth_failed (this : Client) (a : AuthConfig)
  (cmd : Command) (h : string) (p : Z) (c : Conn) (st : Z) (rest : list Z) :
  config_auth this = Some a ->
  st <> 0 ->
  List.concat (incoming c) = [5; 2] ++ [1; st] ++ rest ->
  exists r',
    connectAndRequest this cmd h p c
    = (Err (Error "authentication failed"),
       closed_once
         (with_incoming r' (sent (auth_message a) (sent (greeting this) c))))
    /\ List.concat r' = rest.
Proof.
  intros Ha Hst Hr. unfold connectAndRequest. send. rewrite greeting_sent.
  recv [5; 2] ([1; st] ++ rest) Hr. pass. checks.
  unfold bind at 1. send. rewrite (auth_sent this a Ha).
  recv [1; st] rest Hrest. checks.
  destruct (Z.eqb_spec st 0); [contradiction|]. done_run.
Qed.

(** The proxy refuses the request. *)
Lemma connectAndRequest_denied (this : Client) (cmd : Command) (h : string)
  (p : Z) (c : Conn) (st rsv : Z) (rest : list Z) :
  st <> 0 ->
  List.concat (incoming c) = [5; 0] ++ [5; st; rsv] ++ rest ->
  exists r',
    connectAndRequest this cmd h p c
    = (Err (Error (decodeError st)),
       closed_once
         (with_incoming r' (sent (request cmd h p) (sent (greeting this) c))))
    /\ List.concat r' = rest.
Proof.
  intros Hst Hr. unfold connectAndRequest. send. rewrite greeting_sent.
  recv [5; 0] ([5; st; rsv] ++ rest) Hr. pass. pass.
  send. rewrite request_sent.
  recv [5; st; rsv] rest Hrest. checks.
  destruct (Z.eqb_spec st 0); [contradiction|]. done_run.
Qed.

(** **** The runs that do not *)

(** The stream ends inside the negotiation reply. *)
Lemma connectAndRequest_eof (this : Client) (cmd : Command) (h : string)
  (p : Z) (c : Conn) :
  (pending (incoming c) < 2)%nat ->
  connectAndRequest this cmd h p c
  = (Err (UnexpectedEof (eof_message (2 - pending (incoming c)))),
     with_incoming [] (sent (greeting this) c)).
Proof.
  intros Hshort. unfold connectAndRequest. send. rewrite greeting_sent.
  unfold bind at 1.
  rewrite (on_conn_readN_eof 2 (sent (greeting this) c)) by exact Hshort.
  reflexivity.
Qed.

(** The proxy picks [NoAuth] and accepts the request: the greeting and the
    request are written and the bound address is decoded from what follows
    the two replies. *)
Lemma connectAndRequest_noauth (this : Client) (cmd : Command) (h : string)
  (p : Z) (c : Conn) (rsv : Z) (rest : list Z) :
  List.concat (incoming c) = [5; 0] ++ [5; 0; rsv] ++ rest ->
  exists r',
    connectAndRequest this cmd h p c
    = on_conn deserializeAddress
        (with_incoming r' (sent (request cmd h p) (sent (greeting this) c)))
    /\ List.concat r' = rest.
Proof.
  intros Hr. unfold connectAndRequest. send. rewrite greeting_sent.
  recv [5; 0] ([5; 0; rsv] ++ rest) Hr. pass. pass.
  send. rewrite request_sent.
  recv [5; 0; rsv] rest Hrest. pass. done_run.
Qed.

(** The proxy accepts the credentials and the request. *)
Lemma connectAndRequest_auth (this : Client) (a : AuthConfig)
  (cmd : Command) (h : string) (p : Z) (c : Conn) (rsv : Z) (rest : list Z) :
  config_auth this = Some a ->
  List.concat (incoming c) = [5; 2] ++ [1; 0] ++ [5; 0; rsv] ++ rest ->
  exists r',
    connectAndRequest this cmd h p c
    = on_conn deserializeAddress
        (with_incoming r'
           (sent (request cmd h p)
              (sent (auth_message a) (sent (greeting this) c))))
    /\ List.concat r' = rest.
Proof.
  intros Ha Hr. unfold connectAndRequest. send. rewrite greeting_sent.
  recv [5; 2] ([1; 0] ++ [5; 0; rsv] ++ rest) Hr. pass. checks.
  unfold bind at 1. send. rewrite (auth_sent this a Ha).
  recv [1; 0] ([5; 0; rsv] ++ rest) Hrest. checks. unfold ret at 1.
  send. rewrite request_sent.
  recv [5; 0; rsv] rest Hrest0. pass. done_run.
Qed.

(** [connect] runs [connectAndRequest] on the destination and wraps its
    result; the connection is left as [connectAndRequest] leaves it. *)
Lemma connect_run (this : Client) (opts : ConnectOptions) (c : Conn) :
  connect this opts c
  = let host := match opts_hostname opts with
                | Some h => h
                | None => "127.0.0.1"%string
                end in
    match connectAndRequest this Connect host (opts_port opts) c with
    | (Ok a, c') =>
        (Ok {| localAddr := {| addr_hostname := hostname a;
                               addr_port := port a;
                               transport := "tcp" |};
               remoteAddr := {| addr_hostname := host;
                                addr_port := opts_port opts;
                                transport := "tcp" |} |}, c')
    | (Err e, c') => (Err e, c')
    end.
Proof. reflexivity. Qed.

Lemma serializeAddress_localhost (p : Z) :
  serializeAddress "127.0.0.1" p
  = [1; 127; 0; 0; 1; shr p 8 mod 256; Z.rem p 256 mod 256].
Proof. reflexivity. Qed.


(** Claim C10.  [connect] without a destination hostname is [connect] to
    "127.0.0.1": when the proxy picks [NoAuth] and accepts, the request
    written is [5, 1, 0] and the IPv4 address 127.0.0.1 with the port, and
    the returned object has "127.0.0.1" as remote hostname; and whenever
    [connect] returns, the last message written is that request and the
    remote hostname is "127.0.0.1". *)
Theorem connect_default_hostname (this : Client) (p : Z) (c : Conn) :
  let opts := {| opts_hostname := None; opts_port := p |} in
  let request_bytes :=
    [5; 1; 0; 1; 127; 0; 0; 1; shr p 8 mod 256; Z.rem p 256 mod 256] in
  connect this opts c
  = connect this {| opts_hostname := Some "127.0.0.1"%string;
                    opts_port := p |} c
  /\ (forall tc c',
        connect this opts c = (Ok tc, c') ->
        addr_hostname (remoteAddr tc) = "127.0.0.1"%string
        /\ exists mid,
             outgoing c'
             = outgoing c ++ [greeting this] ++ mid ++ [request_bytes])
  /\ (forall rsv a pt rest,
        List.length a = 4%nat -> List.length pt = 2%nat ->
        List.concat (incoming c)
        = [5; 0] ++ [5; 0; rsv] ++ [1] ++ a ++ pt ++ rest ->
        exists tc c',
          connect this opts c = (Ok tc, c')
          /\ addr_hostname (remoteAddr tc) = "127.0.0.1"%string
          /\ outgoing c' = outgoing c ++ [greeting this; request_bytes]).
Proof.
  intros opts request_bytes.
  assert (Hreq : request Connect "127.0.0.1" p = request_bytes) by reflexivity.
  split; [reflexivity|split].
  - intros tc c' Hrun. rewrite connect_run in Hrun. cbv zeta in Hrun.
    simpl opts_hostname in Hrun. simpl opts_port in Hrun.
    destruct (connectAndRequest this Connect "127.0.0.1" p c)
      as [[a|e] c1] eqn:Hcr; [|discriminate].
    injection Hrun as <- <-. split; [reflexivity|].
    destruct (connectAndRequest_Ok_outgoing this Connect "127.0.0.1" p c c1 a Hcr)
      as (mid & Hmid).
    exists mid. rewrite Hmid, Hreq. reflexivity.
  - intros rsv a pt rest Ha Hpt Hr. rewrite connect_run. cbv zeta.
    simpl opts_hostname. simpl opts_port.
    destruct (connectAndRequest_noauth this Connect "127.0.0.1" p c rsv
                ([1] ++ a ++ pt ++ rest) Hr) as (r1 & -> & Hr1).
    rewrite Hreq.
    set (c1 := with_incoming r1 (sent request_bytes (sent (greeting this) c))).
    assert (Hc1 : List.concat (incoming c1) = [1] ++ a ++ pt ++ rest)
      by exact Hr1.
    destruct (deserializeAddress_IPv4 a pt rest (incoming c1) Ha Hpt Hc1)
      as (r2 & Hdec & _).
    unfold on_conn. rewrite Hdec.
    eexists. eexists. split; [reflexivity|]. split; [reflexivity|].
    simpl. rewrite <- app_assoc. reflexivity.
Qed.

(** Claim C3, where the code departs from it.  When the stream ends one
    byte into the method-negotiation reply, [connectAndRequest] throws
    [UnexpectedEof] and [close] has not been called; the same when the bound
    address has an unknown type byte.  The rejection path next to them does
    call [close]. *)
Theorem handshake_error_leaves_connection_open (this : Client)
  (cmd : Command) (h : string) (p : Z) (throws : bool) :
  (exists c',
     connectAndRequest this cmd h p (from_proxy [[5]] throws)
     = (Err (UnexpectedEof "reached EOF but we expected to read 1 more bytes"),
        c')
     /\ close_calls c' = 0%nat)
  /\ (exists c',
        connectAndRequest this cmd h p
          (from_proxy [[5; 0]; [5; 0; 0]; [9; 0; 0]] throws)
        = (Err (Error "unexpected address type: 9"), c')
        /\ close_calls c' = 0%nat)
  /\ (exists c',
        connectAndRequest this cmd h p (from_proxy [[5; 255]] throws)
        = (Err (Error "no acceptable authentication methods"), c')
        /\ close_calls c' = 1%nat).
Proof.
  split; [|split].
  - rewrite connectAndRequest_eof by (vm_compute; lia).
    eexists. split; reflexivity.
  - destruct (connectAndRequest_noauth this cmd h p
                (from_proxy [[5; 0]; [5; 0; 0]; [9; 0; 0]] throws) 0 [9; 0; 0]
                eq_refl) as (r1 & -> & Hr1).
    set (c1 := with_incoming r1 _).
    assert (Hc1 : List.concat (incoming c1) = [9] ++ [0; 0]) by exact Hr1.
    destruct (deserializeAddress_other 9 [0; 0] (incoming c1)) as (r2 & Hdec & _);
      try lia; trivial.
    unfold on_conn. rewrite Hdec. eexists. split; reflexivity.
  - destruct (connectAndRequest_rejected this cmd h p
                (from_proxy [[5; 255]] throws) [] eq_refl) as (r' & -> & _).
    eexists. split; reflexivity.
Qed.

End HandshakeRuns.


Lemma connect_default_hostname_witness :
  exists tc c',
    @connect plain_engine
      (new_Client {| cfg_hostname := "proxy.example"; cfg_port := None;
                     cfg_auth := None |})
      {| opts_hostname := None; opts_port := 8080 |}
      (from_proxy [[5; 0]; [5; 0; 0; 1; 10; 0]; [0; 7; 4; 210]] false)
    = (Ok tc, c')
    /\ addr_hostname (remoteAddr tc) = "127.0.0.1"%string
    /\ outgoing c'
       = [[5; 1; 0]; [5; 1; 0; 1; 127; 0; 0; 1; 31; 144]].
Proof.
  apply (proj2 (proj2 (@connect_default_hostname plain_engine
           (new_Client {| cfg_hostname := "proxy.example"; cfg_port := None;
                          cfg_auth := None |})
           8080
           (from_proxy [[5; 0]; [5; 0; 0; 1; 10; 0]; [0; 7; 4; 210]] false)))
         0 [10; 0; 0; 7] [4; 210] []); reflexivity.
Defined.

(** The run of the specification's example: credentials configured, the
    proxy answers [5, 2], [1, 0] and [5, 0, 0, 1, 127, 0, 0, 1, 0x1F,
    0x90]; [connect] returns with the bound address 127.0.0.1:8080. *)
Example connect_with_credentials :
  @connect plain_engine
    (new_Client {| cfg_hostname := "proxy.example"; cfg_port := None;
                   cfg_auth := Some {| username := "user";
                                       password := "pass" |} |})
    {| opts_hostname := Some "example.com"%string; opts_port := 443 |}
    (from_proxy [[5; 2]; [1; 0]; [5; 0; 0; 1; 127; 0; 0; 1; 31; 144]] false)
  = (Ok {| localAddr := {| addr_hostname := "127.0.0.1"; addr_port := 8080;
                           transport := "tcp" |};
           remoteAddr := {| addr_hostname := "example.com"; addr_port := 443;
                            transport := "tcp" |} |},
     {| incoming := [];
        outgoing := [[5; 2; 0; 2];
                     [1; 4; 117; 115; 101; 114; 4; 112; 97; 115; 115];
                     [5; 1; 0; 3; 11; 101; 120; 97; 109; 112; 108; 101; 46;
                      99; 111; 109; 1; 187]];
        close_calls := 0;
        close_throws := false |}).
Proof. reflexivity. Qed.

(* ------------------------------------------------------------------ *)
(** ** Sequences of reads *)
(* ------------------------------------------------------------------ *)

Lemma bind_ret {S A B} (a : A) (k : A -> M S B) (s : S) :
  bind (ret a) k s = k a s.
Proof. reflexivity. Qed.

Lemma bind_run {S A B} (m : M S A) (k : A -> M S B) (s s' : S) (a : A) :
  m s = (Ok a, s') -> bind m k s = k a s'.
Proof. intros Hrun. unfold bind. now rewrite Hrun. Qed.

Lemma bind_assoc {S A B C} (m : M S A) (f : A -> M S B) (g : B -> M S C)
  (s : S) :
  bind (bind m f) g s = bind m (fun a => bind (f a) g) s.
Proof. unfold bind. now destruct (m s) as [[a|e] s']. Qed.

Lemma bind_writeAll {B} (bytes : list Z) (k : unit -> M Conn B) (c : Conn) :
  bind (writeAll bytes) k c = k tt (sent bytes c).
Proof. reflexivity. Qed.

(** Property X1.  Two reads in a row return what one read of the sum
    returns, and when the stream ends inside the second, the count in its
    error is the count a single read would report. *)
Theorem readN_then_readN (n m : nat) (r : Reader) :
  (n <= pending r)%nat ->
  exists a r1,
    readN n r = (Ok a, r1)
    /\ (((n + m <= pending r)%nat ->
         exists b r2 r3,
           readN m r1 = (Ok b, r2)
           /\ readN (n + m) r = (Ok (a ++ b), r3)
           /\ List.concat r2 = List.concat r3)
        /\ ((pending r < n + m)%nat ->
            fst (readN m r1) = fst (readN (n + m) r)
            /\ fst (readN m r1)
               = Err (UnexpectedEof
                        ("reached EOF but we expected to read "
                         ++ String_of_Z (Z.of_nat (n + m - pending r))
                         ++ " more bytes")%string))).
Proof.
  unfold pending. intros Hn.
  destruct (readN_ok n r Hn) as (r1 & Hrun1 & Hrest1).
  exists (firstn n (List.concat r)), r1. split; [exact Hrun1|].
  assert (Hlen1 : List.length (List.concat r1)
                  = (List.length (List.concat r) - n)%nat)
    by (rewrite Hrest1; apply length_skipn).
  split.
  - intros Hnm.
    destruct (readN_ok m r1) as (r2 & Hrun2 & Hrest2); [lia|].
    destruct (readN_ok (n + m) r Hnm) as (r3 & Hrun3 & Hrest3).
    exists (firstn m (List.concat r1)), r2, r3.
    split; [exact Hrun2|]. split.
    + rewrite Hrun3. do 2 f_equal. rewrite Hrest1.
      rewrite <- (firstn_skipn n (List.concat r)) at 1.
      rewrite firstn_app, length_firstn, Nat.min_l by lia.
      rewrite firstn_firstn, Nat.min_r by lia.
      do 2 f_equal. lia.
    + rewrite Hrest2, Hrest3, Hrest1, skipn_skipn. f_equal. lia.
  - intros Hshort.
    rewrite (readN_eof m r1) by lia.
    rewrite (readN_eof (n + m) r) by lia. simpl.
    rewrite Hlen1.
    replace (m - (List.length (List.concat r) - n))%nat
      with (n + m - List.length (List.concat r))%nat by lia.
    split; reflexivity.
Qed.

Lemma readN_then_readN_witness :
  exists a r1,
    readN 2 [[5]; [0; 5]; [0]] = (Ok a, r1)
    /\ (((2 + 3 <= pending ([[5]; [0; 5]; [0]]%Z))%nat ->
         exists b r2 r3,
           readN 3 r1 = (Ok b, r2)
           /\ readN (2 + 3) [[5]; [0; 5]; [0]] = (Ok (a ++ b), r3)
           /\ List.concat r2 = List.concat r3)
        /\ ((pending ([[5]; [0; 5]; [0]]%Z) < 2 + 3)%nat ->
            fst (readN 3 r1) = fst (readN (2 + 3) [[5]; [0; 5]; [0]])
            /\ fst (readN 3 r1)
               = Err (UnexpectedEof
                        "reached EOF but we expected to read 1 more bytes"))).
Proof.
  apply (readN_then_readN 2 3 [[5]; [0; 5]; [0]]). vm_compute. lia.
Defined.

Lemma readN_short (n : nat) (have : list Z) (r : Reader) :
  List.concat r = have -> (List.length have < n)%nat ->
  readN n r
  = (Err (UnexpectedEof (eof_message (n - List.length have))), []).
Proof.
  intros Hr Hshort. rewrite <- Hr in *. now apply readN_eof.
Qed.

(** *** Streams cut differently *)

Lemma respects_ret {S A} (R : S -> S -> Prop) (a : A) : respects R (ret a).
Proof. intros s1 s2 HR. split; [reflexivity|exact HR]. Qed.

Lemma respects_throw {S A} (R : S -> S -> Prop) (e : error) :
  respects R (@throw S A e).
Proof. intros s1 s2 HR. split; [reflexivity|exact HR]. Qed.

Lemma respects_bind {S A B} (R : S -> S -> Prop) (m : M S A) (k : A -> M S B) :
  respects R m -> (forall a, respects R (k a)) -> respects R (bind m k).
Proof.
  intros Hm Hk s1 s2 HR. unfold bind.
  destruct (Hm s1 s2 HR) as [Hres Hst].
  destruct (m s1) as [res1 t1], (m s2) as [res2 t2]. simpl in Hres, Hst.
  subst res2. destruct res1 as [a|e].
  - apply Hk. exact Hst.
  - split; [reflexivity|exact Hst].
Qed.

Lemma respects_if {S A} (R : S -> S -> Prop) (b : bool) (m1 m2 : M S A) :
  respects R m1 -> respects R m2 -> respects R (if b then m1 else m2).
Proof. destruct b; auto. Qed.

(** [readN] sees the bytes of the stream, not the reads that deliver them. *)
Lemma readN_same_bytes (n : nat) : respects same_bytes (readN n).
Proof.
  intros r1 r2 HR. unfold same_bytes in *.
  destruct (le_lt_dec n (List.length (List.concat r1))) as [Hle|Hlt].
  - destruct (readN_ok n r1 Hle) as (r1' & -> & Hrest1).
    rewrite HR in Hle. destruct (readN_ok n r2 Hle) as (r2' & -> & Hrest2).
    simpl. rewrite Hrest1, Hrest2, HR. auto.
  - rewrite (readN_eof n r1 Hlt).
    rewrite HR in Hlt. rewrite (readN_eof n r2 Hlt). rewrite HR. auto.
Qed.

Lemma on_conn_same_stream {A} (m : M Reader A) :
  respects same_bytes m -> respects same_stream (on_conn m).
Proof.
  intros Hm c1 c2 (Hin & Hout & Hcl & Hth). unfold on_conn.
  destruct (Hm _ _ Hin) as [Hres Hst].
  destruct (m (incoming c1)) as [res1 t1], (m (incoming c2)) as [res2 t2].
  simpl in *. repeat split; trivial.
Qed.

Lemma writeAll_same_stream (bytes : list Z) :
  respects same_stream (writeAll bytes).
Proof.
  intros c1 c2 (Hin & Hout & Hcl & Hth). unfold writeAll. simpl.
  repeat split; trivial. now rewrite Hout.
Qed.

Lemma try_close_same_stream : respects same_stream try_close.
Proof.
  intros c1 c2 (Hin & Hout & Hcl & Hth). unfold try_close, close. simpl.
  repeat split; trivial. now rewrite Hcl.
Qed.

Create HintDb respects_db.
#[local] Hint Resolve respects_ret respects_throw respects_if readN_same_bytes
  writeAll_same_stream try_close_same_stream : respects_db.

Ltac respects_tac :=
  repeat first
    [ apply respects_bind; [|intros ?]
    | apply respects_if
    | apply on_conn_same_stream
    | solve [auto with respects_db] ].

(* ------------------------------------------------------------------ *)
(** ** The address codec, continued *)
(* ------------------------------------------------------------------ *)

(** A hostname the IPv4 pattern accepts has a dot; one the IPv6 pattern
    accepts has none. *)
Lemma v4Pattern_has_dot (host : string) :
  test v4Pattern host = true -> lacks "." host = false.
Proof.
  intros Ht. apply test_prefix in Ht. destruct Ht as (pre & t & -> & M).
  inversion M as [| |r1 r2 s123 g4 M123 _| |]; subst.
  simpl in M123.
  inversion M123 as [| |r1 r2 s1 s23 M1 _| |]; subst.
  inversion M1 as [| |r1 r2 g1 d Mg Md| |]; subst.
  inversion Md as [|p ch Hch| | |]; subst.
  apply Ascii.eqb_eq in Hch. subst ch.
  unfold lacks. rewrite !all_chars_append. simpl.
  now rewrite !andb_false_r.
Qed.

Lemma fields_lack (sep other : ascii) (gs : list string) (tail : string) :
  Ascii.eqb sep other = false ->
  Forall (fun g => lacks other g = true) gs ->
  lacks other tail = true ->
  lacks other (fields sep gs tail) = true.
Proof.
  intros Hsep Hgs Htail. induction Hgs as [|g gs Hg _ IH]; simpl; [exact Htail|].
  unfold lacks in *. rewrite all_chars_append. simpl.
  now rewrite Hg, Hsep, IH.
Qed.

Lemma hex_not_dot (c : ascii) : hex_ci c = true -> negb (Ascii.eqb c ".") = true.
Proof.
  destruct (Ascii.eqb_spec c "."); [subst; discriminate|reflexivity].
Qed.

Lemma v6Pattern_lacks_dot (host : string) :
  test v6Pattern host = true -> lacks "." host = true.
Proof.
  intros Ht. apply test_whole in Ht.
  inversion Ht as [| |r1 r2 s g8 Ms Mg| |]; subst.
  apply (matches_hex_fields 7) in Ms. destruct Ms as (gs & _ & Hf & ->).
  apply matches_between in Mg; [|lia].
  unfold lacks. rewrite all_chars_append. apply andb_true_intro. split.
  - apply (fields_lack ":" "."); [reflexivity| |reflexivity].
    eapply Forall_impl; [|exact Hf]. intros g [Hg _].
    apply all_chars_weaken with (p := hex_ci); [apply hex_not_dot|exact Hg].
  - apply all_chars_weaken with (p := hex_ci); [apply hex_not_dot|apply Mg].
Qed.

Section CodecMore.
Context `{Engine}.

Lemma deserializeAddress_respects : respects same_bytes deserializeAddress.
Proof. unfold deserializeAddress. respects_tac. Qed.

(** Property X2.  The decoder sees the bytes of the stream, not how the
    reads cut them. *)
Theorem deserializeAddress_chunking (r1 r2 : Reader) :
  List.concat r1 = List.concat r2 ->
  fst (deserializeAddress r1) = fst (deserializeAddress r2)
  /\ List.concat (snd (deserializeAddress r1))
     = List.concat (snd (deserializeAddress r2)).
Proof. intros HR. exact (deserializeAddress_respects r1 r2 HR). Qed.

(** Property X3.  A stream that ends inside an address makes the decoder
    throw [UnexpectedEof] with the number of bytes the read in progress
    still lacked: in the type byte, in the address part (4 bytes for IPv4,
    16 for IPv6, the length byte and then that many bytes for a domain
    name), or in the port. *)
Theorem deserializeAddress_truncated (r : Reader) :
  let eof (missing : nat) :=
    (Err (UnexpectedEof
            ("reached EOF but we expected to read "
             ++ String_of_Z (Z.of_nat missing) ++ " more bytes")%string),
     @nil (list Z))
    : result Address * Reader in
  (List.concat r = [] -> deserializeAddress r = eof 1%nat)
  /\ (forall a,
        List.concat r = [1] ++ a -> (List.length a < 4)%nat ->
        deserializeAddress r = eof (4 - List.length a)%nat)
  /\ (forall a,
        List.concat r = [4] ++ a -> (List.length a < 16)%nat ->
        deserializeAddress r = eof (16 - List.length a)%nat)
  /\ (List.concat r = [3] -> deserializeAddress r = eof 1%nat)
  /\ (forall l name,
        List.concat r = [3; l] ++ name ->
        (List.length name < Z.to_nat l)%nat ->
        deserializeAddress r = eof (Z.to_nat l - List.length name)%nat)
  /\ (forall t a p,
        (t = 1 /\ List.length a = 4%nat) \/ (t = 4 /\ List.length a = 16%nat) ->
        List.concat r = [t] ++ a ++ p -> (List.length p < 2)%nat ->
        deserializeAddress r = eof (2 - List.length p)%nat)
  /\ (forall l name p,
        List.length name = Z.to_nat l ->
        List.concat r = [3; l] ++ name ++ p -> (List.length p < 2)%nat ->
        deserializeAddress r = eof (2 - List.length p)%nat).
Proof.
  intros eof. unfold eof. repeat split.
  - intros Hr. unfold deserializeAddress, bind.
    now rewrite (readN_short 1 [] r Hr) by (simpl; lia).
  - intros a Hr Ha. unfold deserializeAddress, bind, ret.
    take [1] a Hr. rewrite Hrun.
    change (at_ 0 [1] =? AddrType_value IPv4) with true. cbv beta iota.
    now rewrite (readN_short 4 a r0 Hrest Ha).
  - intros a Hr Ha. unfold deserializeAddress, bind, ret.
    take [4] a Hr. rewrite Hrun.
    change (at_ 0 [4] =? AddrType_value IPv4) with false.
    change (at_ 0 [4] =? AddrType_value IPv6) with true. cbv beta iota.
    now rewrite (readN_short 16 a r0 Hrest Ha).
  - intros Hr. unfold deserializeAddress, bind, ret.
    take [3] (@nil Z) Hr. rewrite Hrun.
    change (at_ 0 [3] =? AddrType_value IPv4) with false.
    change (at_ 0 [3] =? AddrType_value IPv6) with false.
    change (at_ 0 [3] =? AddrType_value DomainName) with true. cbv beta iota.
    now rewrite (readN_short 1 [] r0 Hrest) by (simpl; lia).
  - intros l name Hr Hn. unfold deserializeAddress, bind, ret.
    take [3] ([l] ++ name) Hr. rewrite Hrun.
    take [l] name Hrest.
    change (at_ 0 [3] =? AddrType_value IPv4) with false.
    change (at_ 0 [3] =? AddrType_value IPv6) with false.
    change (at_ 0 [3] =? AddrType_value DomainName) with true. cbv beta iota.
    rewrite Hrun0. change (at_ 0 [l]) with l.
    now rewrite (readN_short (Z.to_nat l) name r1 Hrest0 Hn).
  - intros t a p [[-> Ha]|[-> Ha]] Hr Hp; unfold deserializeAddress, bind, ret.
    + take [1] (a ++ p) Hr. rewrite Hrun.
      take a p Hrest. rewrite Ha in *.
      change (at_ 0 [1] =? AddrType_value IPv4) with true. cbv beta iota.
      rewrite Hrun0. now rewrite (readN_short 2 p r1 Hrest0 Hp).
    + take [4] (a ++ p) Hr. rewrite Hrun.
      take a p Hrest. rewrite Ha in *.
      change (at_ 0 [4] =? AddrType_value IPv4) with false.
      change (at_ 0 [4] =? AddrType_value IPv6) with true. cbv beta iota.
      rewrite Hrun0. now rewrite (readN_short 2 p r1 Hrest0 Hp).
  - intros l name p Hn Hr Hp. unfold deserializeAddress, bind, ret.
    take [3] ([l] ++ name ++ p) Hr. rewrite Hrun.
    take [l] (name ++ p) Hrest.
    take name p Hrest0. rewrite Hn in *.
    change (at_ 0 [3] =? AddrType_value IPv4) with false.
    change (at_ 0 [3] =? AddrType_value IPv6) with false.
    change (at_ 0 [3] =? AddrType_value DomainName) with true. cbv beta iota.
    rewrite Hrun0. change (at_ 0 [l]) with l. rewrite Hrun1.
    now rewrite (readN_short 2 p r2 Hrest1 Hp).
Qed.

(** Property X7.  No hostname is taken for both an IPv4 and an IPv6 address,
    and for every hostname the IPv6 pattern accepts the encoder emits 19
    bytes: the type byte 4, the hostname's eight hexadecimal groups, two
    bytes each, high byte first, and the port. *)
Theorem serializeAddress_IPv6_groups (host : string) (p : Z) :
  test v6Pattern host = true ->
  test v4Pattern host = false
  /\ exists vs,
       ipv6_groups host = map Some vs
       /\ List.length vs = 8%nat
       /\ Forall (fun v => 0 <= v < 65536) vs
       /\ serializeAddress host p
          = [4] ++ group_bytes vs ++ [shr p 8 mod 256; Z.rem p 256 mod 256]
       /\ List.length (serializeAddress host p) = 19%nat.
Proof.
  intros H6.
  assert (H4 : test v4Pattern host = false).
  { destruct (test v4Pattern host) eqn:E; [|reflexivity].
    apply v4Pattern_has_dot in E. apply v6Pattern_lacks_dot in H6. congruence. }
  split; [exact H4|].
  destruct (v6Pattern_fields host H6) as (gs & Hl & Hf & Hsplit).
  destruct (hex_fields_values gs Hf) as (vs & Hvs & Hr).
  assert (Hlv : List.length vs = 8%nat).
  { rewrite <- Hl, <- (length_map hex_value gs), Hvs. symmetry. apply length_map. }
  assert (Hs : serializeAddress host p
               = [4] ++ group_bytes vs
                 ++ [shr p 8 mod 256; Z.rem p 256 mod 256]).
  { unfold serializeAddress. rewrite H4, H6, Hsplit. cbv zeta.
    unfold Uint8Array_from. rewrite !map_app.
    rewrite (serialized_groups gs vs Hf Hvs Hr). reflexivity. }
  exists vs. repeat split; trivial.
  - unfold ipv6_groups. now rewrite Hsplit.
  - rewrite Hs, !length_app, group_bytes_length, Hlv. reflexivity.
Qed.

(** Property X8.  A hostname that is four dot-separated runs of one to three
    digits is encoded as the type byte 1, the value of each run modulo 256,
    and the port: a run above 255 wraps, it is not refused. *)
Theorem serializeAddress_IPv4_octets_wrap (g1 g2 g3 g4 : string) (p : Z) :
  (forall g, In g [g1; g2; g3; g4] ->
     all_chars digit g = true /\ (1 <= String.length g <= 3)%nat) ->
  exists v1 v2 v3 v4,
    map decimal_value [g1; g2; g3; g4] = map Some [v1; v2; v3; v4]
    /\ serializeAddress (g1 ++ "." ++ g2 ++ "." ++ g3 ++ "." ++ g4) p
       = [1; v1 mod 256; v2 mod 256; v3 mod 256; v4 mod 256;
          shr p 8 mod 256; Z.rem p 256 mod 256].
Proof.
  intros Hg.
  destruct (digits_decimal_value g1) as (v1 & V1); [apply Hg; simpl; auto|].
  destruct (digits_decimal_value g2) as (v2 & V2); [apply Hg; simpl; auto|].
  destruct (digits_decimal_value g3) as (v3 & V3); [apply Hg; simpl; auto|].
  destruct (digits_decimal_value g4) as (v4 & V4); [apply Hg; simpl; auto|].
  exists v1, v2, v3, v4. split.
  - simpl. now rewrite V1, V2, V3, V4.
  - now apply serializeAddress_IPv4_four_groups.
Qed.

(** Property X9.  Whatever the hostname, the encoder returns bytes: a type
    byte 1, 3 or 4 first and the port last, high byte first; for a port of
    16 bits these are the port divided by 256 and the port modulo 256. *)
Theorem serializeAddress_shape (host : string) (p : Z) :
  (exists t addr,
     serializeAddress host p
     = [t] ++ addr ++ [shr p 8 mod 256; Z.rem p 256 mod 256]
     /\ (t = 1 \/ t = 3 \/ t = 4))
  /\ Forall (fun b => 0 <= b < 256) (serializeAddress host p)
  /\ (0 <= p < 65536 ->
      shr p 8 mod 256 = p / 256 /\ Z.rem p 256 mod 256 = p mod 256).
Proof.
  split; [|split].
  - unfold serializeAddress, Uint8Array_from.
    destruct (test v4Pattern host); [|destruct (test v6Pattern host)];
      cbv zeta; rewrite !map_app; simpl map.
    + eexists 1, _. split; [reflexivity|auto].
    + eexists 4, _. split; [reflexivity|auto].
    + eexists 3, (_ :: _). split; [reflexivity|auto].
  - apply serializeAddress_range.
  - intros Hp. rewrite shr_u16 by lia.
    rewrite Z.rem_mod_nonneg, Z.mod_mod by lia.
    split; [|reflexivity]. apply Z.mod_small.
    split; [apply Z.div_pos; lia|apply Z.div_lt_upper_bound; lia].
Qed.

(** Property X6.  The other round trip, for IPv4. The seven bytes of an IPv4
    address decode to a hostname and a port of 16 bits that the encoder
    turns back into the same seven bytes. *)
Theorem deserializeAddress_then_serializeAddress_IPv4
  (a b c d hi lo : Z) (rest : list Z) (r : Reader) :
  Forall (fun x => 0 <= x < 256) [a; b; c; d; hi; lo] ->
  List.concat r = [1; a; b; c; d; hi; lo] ++ rest ->
  exists res r',
    deserializeAddress r = (Ok res, r')
    /\ List.concat r' = rest
    /\ hostname res = ipv4_text a b c d
    /\ port res = 256 * hi + lo
    /\ 0 <= port res < 65536
    /\ serializeAddress (hostname res) (port res) = [1; a; b; c; d; hi; lo].
Proof.
  intros Hrange Hr.
  assert (Ha : 0 <= a < 256) by (eapply (proj1 (Forall_forall _ _) Hrange); simpl; auto).
  assert (Hb : 0 <= b < 256) by (eapply (proj1 (Forall_forall _ _) Hrange); simpl; auto).
  assert (Hc : 0 <= c < 256) by (eapply (proj1 (Forall_forall _ _) Hrange); simpl; auto).
  assert (Hd : 0 <= d < 256) by (eapply (proj1 (Forall_forall _ _) Hrange); simpl; auto 6).
  assert (Hhi : 0 <= hi < 256) by (eapply (proj1 (Forall_forall _ _) Hrange); simpl; auto 6).
  assert (Hlo : 0 <= lo < 256) by (eapply (proj1 (Forall_forall _ _) Hrange); simpl; auto 7).
  destruct (deserializeAddress_IPv4 [a; b; c; d] [hi; lo] rest r)
    as (r' & Hrun & Hrest); trivial.
  eexists. exists r'. split; [exact Hrun|]. cbn [hostname port at_ nth].
  rewrite shl_byte by lia.
  split; [exact Hrest|]. split; [reflexivity|]. split; [reflexivity|].
  split; [lia|].
  change (join "." (map String_of_Z [a; b; c; d]))
    with (String_of_Z a ++ "." ++ String_of_Z b ++ "."
          ++ String_of_Z c ++ "." ++ String_of_Z d)%string.
  rewrite (serializeAddress_IPv4_four_groups
             (String_of_Z a) (String_of_Z b) (String_of_Z c) (String_of_Z d)
             a b c d (256 * hi + lo)).
  - rewrite !(Z.mod_small _ 256) by lia.
    assert (Hq : (256 * hi + lo) / 256 = hi).
    { rewrite Z.mul_comm, Z.div_add_l by lia. rewrite Z.div_small by lia. lia. }
    assert (Hm : (256 * hi + lo) mod 256 = lo).
    { rewrite Z.add_comm, Z.mul_comm, Z.mod_add by lia. apply Z.mod_small. lia. }
    rewrite shr_u16 by lia.
    rewrite Z.rem_mod_nonneg by lia.
    rewrite Hq, Hm, !(Z.mod_small _ 256) by lia. reflexivity.
  - intros g [<-|[<-|[<-|[<-|[]]]]]; now apply String_of_byte.
  - apply decimal_value_String_of_Z; lia.
  - apply decimal_value_String_of_Z; lia.
  - apply decimal_value_String_of_Z; lia.
  - apply decimal_value_String_of_Z; lia.
Qed.

End CodecMore.

Lemma deserializeAddress_chunking_witness :
  fst (@deserializeAddress plain_engine [[1; 10; 0; 0; 7; 4; 210; 9]])
  = fst (@deserializeAddress plain_engine [[1]; [10; 0]; []; [0; 7; 4]; [210; 9]])
  /\ List.concat
       (snd (@deserializeAddress plain_engine [[1; 10; 0; 0; 7; 4; 210; 9]]))
     = List.concat
         (snd (@deserializeAddress plain_engine
                 [[1]; [10; 0]; []; [0; 7; 4]; [210; 9]])).
Proof.
  apply (@deserializeAddress_chunking plain_engine). reflexivity.
Defined.

Lemma deserializeAddress_truncated_witness :
  @deserializeAddress plain_engine [[1; 10]; [0]]
  = (Err (UnexpectedEof "reached EOF but we expected to read 2 more bytes"), [])
  /\ @deserializeAddress plain_engine [[3; 5]; [104; 105]]
     = (Err (UnexpectedEof "reached EOF but we expected to read 3 more bytes"),
        [])
  /\ @deserializeAddress plain_engine [[1; 10]; [0; 0; 7; 31]]
     = (Err (UnexpectedEof "reached EOF but we expected to read 1 more bytes"),
        []).
Proof.
  split; [|split].
  - apply (proj1 (proj2 (@deserializeAddress_truncated plain_engine
                           [[1; 10]; [0]])) [10; 0]).
    + reflexivity.
    + simpl. lia.
  - apply (proj1 (proj2 (proj2 (proj2 (proj2
             (@deserializeAddress_truncated plain_engine
                [[3; 5]; [104; 105]]))))) 5 [104; 105]).
    + reflexivity.
    + simpl. lia.
  - apply (proj1 (proj2 (proj2 (proj2 (proj2 (proj2
             (@deserializeAddress_truncated plain_engine
                [[1; 10]; [0; 0; 7; 31]])))))) 1 [10; 0; 0; 7] [31]).
    + left. split; reflexivity.
    + reflexivity.
    + simpl. lia.
Defined.

Lemma roundtrip_IPv4_witness :
  exists r',
    @deserializeAddress plain_engine
      [[1; 192]; [168; 0; 1; 31]; [144; 7]]
    = (Ok {| hostname := ipv4_text 192 168 0 1; port := 8080;
             bytesRead := 7 |}, r')
    /\ List.concat r' = [7].
Proof.
  apply (@roundtrip_IPv4 plain_engine 192 168 0 1 8080 [7]); try lia.
  reflexivity.
Defined.

Lemma roundtrip_DomainName_witness :
  exists r',
    @deserializeAddress plain_engine
      [[3; 11; 101; 120; 97; 109]; [112; 108; 101; 46; 99; 111; 109; 1; 187]]
    = (Ok {| hostname := "example.com"; port := 443;
             bytesRead := Z.of_nat (List.length (encode "example.com")) + 4 |},
       r')
    /\ List.concat r' = [].
Proof.
  apply (@roundtrip_DomainName plain_engine "example.com" 443 []);
    try reflexivity; try lia.
  simpl. lia.
Defined.

Lemma deserializeAddress_then_serializeAddress_IPv4_witness :
  exists res r',
    @deserializeAddress plain_engine [[1; 192; 168]; [0; 1; 31; 144; 7]]
    = (Ok res, r')
    /\ List.concat r' = [7]
    /\ hostname res = ipv4_text 192 168 0 1
    /\ port res = 256 * 31 + 144
    /\ 0 <= port res < 65536
    /\ @serializeAddress plain_engine (hostname res) (port res)
       = [1; 192; 168; 0; 1; 31; 144].
Proof.
  apply (@deserializeAddress_then_serializeAddress_IPv4 plain_engine).
  - repeat constructor; lia.
  - reflexivity.
Defined.

Lemma serializeAddress_IPv6_groups_witness :
  test v4Pattern "2001:DB8:0:0:0:0:0:ff" = false
  /\ exists vs,
       ipv6_groups "2001:DB8:0:0:0:0:0:ff" = map Some vs
       /\ List.length vs = 8%nat
       /\ Forall (fun v => 0 <= v < 65536) vs
       /\ @serializeAddress plain_engine "2001:DB8:0:0:0:0:0:ff" 443
          = [4] ++ group_bytes vs ++ [shr 443 8 mod 256; Z.rem 443 256 mod 256]
       /\ List.length (@serializeAddress plain_engine
                         "2001:DB8:0:0:0:0:0:ff" 443) = 19%nat.
Proof.
  apply (@serializeAddress_IPv6_groups plain_engine). reflexivity.
Defined.

Lemma serializeAddress_IPv4_octets_wrap_witness :
  exists v1 v2 v3 v4,
    map decimal_value ["256"; "1"; "01"; "300"]%string
    = map Some [v1; v2; v3; v4]
    /\ @serializeAddress plain_engine
         ("256" ++ "." ++ "1" ++ "." ++ "01" ++ "." ++ "300") 80
       = [1; v1 mod 256; v2 mod 256; v3 mod 256; v4 mod 256;
          shr 80 8 mod 256; Z.rem 80 256 mod 256].
Proof.
  apply (@serializeAddress_IPv4_octets_wrap plain_engine).
  intros g [<-|[<-|[<-|[<-|[]]]]]; split; try reflexivity; simpl; lia.
Defined.

Lemma serializeAddress_shape_witness :
  shr 8080 8 mod 256 = 8080 / 256 /\ Z.rem 8080 256 mod 256 = 8080 mod 256.
Proof.
  apply (proj2 (proj2 (@serializeAddress_shape plain_engine
                         "example.com" 8080))). lia.
Defined.

(* ------------------------------------------------------------------ *)
(** ** The handshake, continued *)
(* ------------------------------------------------------------------ *)

(** *** Calls of [close] *)

Lemma ctt_ret {A} (a : A) : closes_to_throw (ret a).
Proof. intros c. now left. Qed.

Lemma ctt_throw {A} (e : error) : closes_to_throw (@throw Conn A e).
Proof. intros c. now left. Qed.

Lemma ctt_on_conn {A} (m : M Reader A) : closes_to_throw (on_conn m).
Proof. intros c. left. unfold on_conn. now destruct (m (incoming c)). Qed.

Lemma ctt_writeAll (bytes : list Z) : closes_to_throw (writeAll bytes).
Proof. intros c. now left. Qed.

Lemma ctt_close_throw {A} (message : string) :
  closes_to_throw (bind try_close (fun _ => @throw Conn A (Error message))).
Proof. intros c. right. simpl. eauto. Qed.

Lemma ctt_if {A} (b : bool) (m1 m2 : M Conn A) :
  closes_to_throw m1 -> closes_to_throw m2 ->
  closes_to_throw (if b then m1 else m2).
Proof. destruct b; auto. Qed.

Lemma ctt_bind {A B} (m : M Conn A) (k : A -> M Conn B) :
  closes_to_throw m -> (forall a, closes_to_throw (k a)) ->
  closes_to_throw (bind m k).
Proof.
  intros Hm Hk c. unfold bind. specialize (Hm c).
  destruct (m c) as [[a|e] c1]; simpl in Hm.
  - destruct Hm as [Hm|(_ & msg & Habs)]; [|discriminate].
    rewrite <- Hm. apply Hk.
  - simpl. destruct Hm as [Hm|(Hm & msg & Hmsg)].
    + now left.
    + right. split; [exact Hm|]. exists msg. injection Hmsg as ->. reflexivity.
Qed.

Ltac ctt_tac :=
  repeat first
    [ apply ctt_close_throw
    | apply ctt_bind; [|intros ?]
    | apply ctt_if
    | apply ctt_ret | apply ctt_throw | apply ctt_on_conn | apply ctt_writeAll ].

Lemma quiet_ret {A} (a : A) : quiet (ret a).
Proof. intros c. reflexivity. Qed.

Lemma quiet_throw {A} (e : error) : quiet (@throw Conn A e).
Proof. intros c. reflexivity. Qed.

Lemma quiet_on_conn {A} (m : M Reader A) : quiet (on_conn m).
Proof. intros c. unfold on_conn. now destruct (m (incoming c)). Qed.

Lemma quiet_try_close : quiet try_close.
Proof. intros c. reflexivity. Qed.

Lemma quiet_if {A} (b : bool) (m1 m2 : M Conn A) :
  quiet m1 -> quiet m2 -> quiet (if b then m1 else m2).
Proof. destruct b; auto. Qed.

Lemma quiet_bind {A B} (m : M Conn A) (k : A -> M Conn B) :
  quiet m -> (forall a, quiet (k a)) -> quiet (bind m k).
Proof.
  intros Hm Hk c. unfold bind. specialize (Hm c).
  destruct (m c) as [[a|e] c1]; simpl in Hm.
  - rewrite <- Hm. apply Hk.
  - exact Hm.
Qed.

Ltac quiet_tac :=
  repeat first
    [ apply quiet_bind; [|intros ?]
    | apply quiet_if
    | apply quiet_ret | apply quiet_throw | apply quiet_on_conn
    | apply quiet_try_close ].

Section HandshakeMore.
Context `{Engine}.

Lemma connect_as_request (this : Client) (opts : ConnectOptions) (c : Conn) :
  connect this opts c
  = match connectAndRequest this Connect (destination opts) (opts_port opts) c with
    | (Ok a, c') => (Ok (tunnel opts a), c')
    | (Err e, c') => (Err e, c')
    end.
Proof. reflexivity. Qed.

(** The reply to the request has another version. *)
Lemma connectAndRequest_reply_version (this : Client) (cmd : Command)
  (h : string) (p : Z) (c : Conn) (v st rsv : Z) (rest : list Z) :
  v <> 5 ->
  List.concat (incoming c) = [5; 0] ++ [v; st; rsv] ++ rest ->
  exists r',
    connectAndRequest this cmd h p c
    = (Err (Error ("unsupported SOCKS version number: " ++ String_of_Z v)),
       closed_once
         (with_incoming r' (sent (request cmd h p) (sent (greeting this) c))))
    /\ List.concat r' = rest.
Proof.
  intros Hv Hr. unfold connectAndRequest. send. rewrite greeting_sent.
  recv [5; 0] ([v; st; rsv] ++ rest) Hr. pass. pass.
  send. rewrite request_sent.
  recv [v; st; rsv] rest Hrest. checks.
  destruct (Z.eqb_spec v 5); [contradiction|]. done_run.
Qed.

(** The reply to the credentials has another version. *)
Lemma connectAndRequest_auth_version (this : Client) (a : AuthConfig)
  (cmd : Command) (h : string) (p : Z) (c : Conn) (v st : Z) (rest : list Z) :
  config_auth this = Some a ->
  v <> 1 ->
  List.concat (incoming c) = [5; 2] ++ [v; st] ++ rest ->
  exists r',
    connectAndRequest this cmd h p c
    = (Err (Error ("unsupported authentication version number: "
                   ++ String_of_Z v)),
       closed_once
         (with_incoming r' (sent (auth_message a) (sent (greeting this) c))))
    /\ List.concat r' = rest.
Proof.
  intros Ha Hv Hr. unfold connectAndRequest. send. rewrite greeting_sent.
  recv [5; 2] ([v; st] ++ rest) Hr. pass. checks.
  unfold bind at 1. send. rewrite (auth_sent this a Ha).
  recv [v; st] rest Hrest. checks.
  destruct (Z.eqb_spec v 1); [contradiction|]. done_run.
Qed.

(** The proxy picks a method that is neither [UsernamePassword] nor
    [NoneAcceptable]: the request follows at once, and nothing is written
    after it. *)
Lemma connectAndRequest_method_other (this : Client) (cmd : Command)
  (h : string) (p : Z) (c : Conn) (m : Z) (rest : list Z) :
  m <> 2 -> m <> 255 ->
  List.concat (incoming c) = [5; m] ++ rest ->
  exists k r',
    quiet k
    /\ connectAndRequest this cmd h p c
       = k (sent (request cmd h p) (with_incoming r' (sent (greeting this) c)))
    /\ List.concat r' = rest.
Proof.
  intros H2 H255 Hr.
  destruct (on_conn_readN [5; m] rest (sent (greeting this) c) Hr)
    as (r1 & Hrun & Hrest). simpl List.length in Hrun.
  eexists. exists r1. split; [|split].
  2:{ unfold connectAndRequest. send. rewrite greeting_sent.
      unfold bind at 1. rewrite Hrun. cbn [at_ nth]. checks.
      destruct (Z.eqb_spec m 255); [contradiction|].
      cbn [orb]. unfold bind at 1. unfold ret at 1.
      destruct (Z.eqb_spec m 2); [contradiction|].
      unfold bind at 1. unfold ret at 1.
      send. rewrite request_sent. reflexivity. }
  - cbv beta. quiet_tac.
  - eassumption.
Qed.

Lemma connectAndRequest_closes (this : Client) (cmd : Command) (h : string)
  (p : Z) : closes_to_throw (connectAndRequest this cmd h p).
Proof. unfold connectAndRequest. ctt_tac. Qed.

(** Property X11.  Close at most once per call, only before throwing an
    [Error], never on a connection that is returned. *)
Theorem connect_closes_only_to_throw (this : Client) (opts : ConnectOptions)
  (c : Conn) :
  match connect this opts c with
  | (Ok _, c') => close_calls c' = close_calls c
  | (Err e, c') =>
      close_calls c' = close_calls c
      \/ (close_calls c' = S (close_calls c) /\ exists message, e = Error message)
  end.
Proof.
  rewrite connect_run. cbv zeta.
  pose proof (connectAndRequest_closes this Connect
                match opts_hostname opts with
                | Some h => h
                | None => "127.0.0.1"%string
                end (opts_port opts) c) as Hc.
  destruct (connectAndRequest _ _ _ _ c) as [[a|e] c']; simpl in Hc.
  - destruct Hc as [Hc|(_ & msg & Habs)]; [exact Hc|discriminate].
  - destruct Hc as [Hc|(Hc & msg & Hmsg)]; [now left|].
    right. split; [exact Hc|]. exists msg. now injection Hmsg.
Qed.

Lemma connectAndRequest_respects (this : Client) (cmd : Command) (h : string)
  (p : Z) : respects same_stream (connectAndRequest this cmd h p).
Proof.
  unfold connectAndRequest. respects_tac.
Qed.

(** Property X10.  [connect] sees the bytes the proxy sends, not how the
    reads cut them: the result is the same and so is the connection
    afterwards. *)
Theorem connect_chunking (this : Client) (opts : ConnectOptions) (c1 c2 : Conn) :
  same_stream c1 c2 ->
  fst (connect this opts c1) = fst (connect this opts c2)
  /\ same_stream (snd (connect this opts c1)) (snd (connect this opts c2)).
Proof.
  intros HR.
  assert (Hc : respects same_stream (connect this opts)).
  { unfold connect. respects_tac. }
  exact (Hc c1 c2 HR).
Qed.

Lemma connect_state (this : Client) (opts : ConnectOptions) (c : Conn) :
  snd (connect this opts c)
  = snd (connectAndRequest this Connect (destination opts) (opts_port opts) c).
Proof.
  rewrite connect_as_request.
  now destruct (connectAndRequest _ _ _ _ c) as [[a|e] c'].
Qed.

Lemma connect_throws (this : Client) (opts : ConnectOptions) (c c' : Conn)
  (e : error) :
  connectAndRequest this Connect (destination opts) (opts_port opts) c
  = (Err e, c') ->
  connect this opts c = (Err e, c').
Proof. intros Hrun. rewrite connect_as_request, Hrun. reflexivity. Qed.

(** Property X12.  A reply with a version other than 5, to the negotiation
    or to the request, closes the connection and throws "unsupported SOCKS
    version number: " and the version; nothing more is written. *)
Theorem connect_version_mismatch (this : Client) (opts : ConnectOptions)
  (c : Conn) (v : Z) :
  v <> 5 ->
  (forall m rest,
     List.concat (incoming c) = [v; m] ++ rest ->
     exists c',
       connect this opts c
       = (Err (Error ("unsupported SOCKS version number: " ++ String_of_Z v)),
          c')
       /\ outgoing c' = outgoing c ++ [greeting this]
       /\ close_calls c' = S (close_calls c))
  /\ (forall st rsv rest,
        List.concat (incoming c) = [5; 0] ++ [v; st; rsv] ++ rest ->
        exists c',
          connect this opts c
          = (Err (Error ("unsupported SOCKS version number: "
                         ++ String_of_Z v)), c')
          /\ outgoing c'
             = outgoing c
               ++ [greeting this;
                   request Connect (destination opts) (opts_port opts)]
          /\ close_calls c' = S (close_calls c)).
Proof.
  intros Hv. split.
  - intros m rest Hr.
    destruct (connectAndRequest_version this Connect (destination opts)
                (opts_port opts) c v m rest Hv Hr) as (r' & Hrun & _).
    eexists. split; [apply connect_throws; exact Hrun|]. split; reflexivity.
  - intros st rsv rest Hr.
    destruct (connectAndRequest_reply_version this Connect (destination opts)
                (opts_port opts) c v st rsv rest Hv Hr) as (r' & Hrun & _).
    eexists. split; [apply connect_throws; exact Hrun|].
    split; [|reflexivity]. simpl. now rewrite <- app_assoc.
Qed.

(** Property X13.  A reply to the request with a status other than 0 closes
    the connection and throws the message [decodeError] has for the status;
    the bytes after the reply are left unread. *)
Theorem connect_request_denied (this : Client) (opts : ConnectOptions)
  (c : Conn) (st rsv : Z) (rest : list Z) :
  st <> 0 ->
  List.concat (incoming c) = [5; 0] ++ [5; st; rsv] ++ rest ->
  exists c',
    connect this opts c = (Err (Error (decodeError st)), c')
    /\ outgoing c'
       = outgoing c
         ++ [greeting this; request Connect (destination opts) (opts_port opts)]
    /\ close_calls c' = S (close_calls c)
    /\ List.concat (incoming c') = rest.
Proof.
  intros Hst Hr.
  destruct (connectAndRequest_denied this Connect (destination opts)
              (opts_port opts) c st rsv rest Hst Hr) as (r' & Hrun & Hrest).
  eexists. split; [apply connect_throws; exact Hrun|].
  split; [|split; [reflexivity|exact Hrest]].
  simpl. now rewrite <- app_assoc.
Qed.

(** Property X14.  With credentials configured and [UsernamePassword]
    picked, the client writes [1], the length of the username, the username,
    the length of the password and the password; a reply whose version is
    not 1 or whose status is not 0 closes the connection and throws, and the
    request is never written. *)
Theorem connect_authentication_failed (this : Client) (a : AuthConfig)
  (opts : ConnectOptions) (c : Conn) (v st : Z) (rest : list Z) :
  config_auth this = Some a ->
  v <> 1 \/ st <> 0 ->
  List.concat (incoming c) = [5; 2] ++ [v; st] ++ rest ->
  exists c',
    connect this opts c
    = (Err (Error (if v =? 1 then "authentication failed"
                   else "unsupported authentication version number: "
                        ++ String_of_Z v)), c')
    /\ outgoing c' = outgoing c ++ [greeting this; auth_message a]
    /\ close_calls c' = S (close_calls c).
Proof.
  intros Ha Hbad Hr. destruct (Z.eqb_spec v 1) as [->|Hv].
  - destruct Hbad as [Hv|Hst]; [contradiction|].
    destruct (connectAndRequest_auth_failed this a Connect (destination opts)
                (opts_port opts) c st rest Ha Hst Hr) as (r' & Hrun & _).
    eexists. split; [apply connect_throws; exact Hrun|].
    split; [|reflexivity]. simpl. now rewrite <- app_assoc.
  - destruct (connectAndRequest_auth_version this a Connect (destination opts)
                (opts_port opts) c v st rest Ha Hv Hr) as (r' & Hrun & _).
    eexists. split; [apply connect_throws; exact Hrun|].
    split; [|reflexivity]. simpl. now rewrite <- app_assoc.
Qed.

(** The result of decoding the bound address on the connection. *)
Lemma on_conn_deserializeAddress (c : Conn) (rest : list Z) :
  List.concat (incoming c) = rest ->
  fst (on_conn deserializeAddress c) = fst (deserializeAddress [rest])
  /\ outgoing (snd (on_conn deserializeAddress c)) = outgoing c
  /\ close_calls (snd (on_conn deserializeAddress c)) = close_calls c
  /\ List.concat (incoming (snd (on_conn deserializeAddress c)))
     = List.concat (snd (deserializeAddress [rest])).
Proof.
  intros Hr.
  assert (Hsame : same_bytes (incoming c) [rest]).
  { unfold same_bytes. simpl. now rewrite app_nil_r. }
  destruct (deserializeAddress_respects _ _ Hsame) as [Hres Hst].
  unfold on_conn.
  destruct (deserializeAddress (incoming c)) as [res r1]. simpl in *.
  auto.
Qed.

(** Property X15.  The proxy picks [NoAuth] and accepts the request.
    [connect] writes the greeting and the request, decodes the bound address
    from the bytes after the two replies, and returns it as local address,
    with the destination as remote address; it throws what the decoder
    throws. The connection is not closed and what follows the bound address
    is left unread. *)
Theorem connect_NoAuth_returns (this : Client) (opts : ConnectOptions)
  (c : Conn) (rsv : Z) (rest : list Z) :
  List.concat (incoming c) = [5; 0] ++ [5; 0; rsv] ++ rest ->
  let decoded := deserializeAddress [rest] in
  let after := connect this opts c in
  fst after = match fst decoded with
              | Ok a => Ok (tunnel opts a)
              | Err e => Err e
              end
  /\ outgoing (snd after)
     = outgoing c
       ++ [greeting this; request Connect (destination opts) (opts_port opts)]
  /\ close_calls (snd after) = close_calls c
  /\ List.concat (incoming (snd after)) = List.concat (snd decoded).
Proof.
  intros Hr decoded after. unfold after, decoded.
  destruct (connectAndRequest_noauth this Connect (destination opts)
              (opts_port opts) c rsv rest Hr) as (r' & Hrun & Hrest).
  set (c1 := with_incoming r' _) in Hrun.
  destruct (on_conn_deserializeAddress c1 rest Hrest)
    as (Hres & Hout & Hcl & Hin).
  rewrite connect_state, connect_as_request, Hrun.
  rewrite Hout, Hcl, Hin, <- Hres.
  repeat split.
  - now destruct (on_conn deserializeAddress c1) as [[a|e] c'].
  - simpl. now rewrite <- app_assoc.
Qed.

(** Property X16.  The same with credentials: the proxy picks
    [UsernamePassword], accepts the credentials and the request. *)
Theorem connect_UsernamePassword_returns (this : Client) (a : AuthConfig)
  (opts : ConnectOptions) (c : Conn) (rsv : Z) (rest : list Z) :
  config_auth this = Some a ->
  List.concat (incoming c) = [5; 2] ++ [1; 0] ++ [5; 0; rsv] ++ rest ->
  let decoded := deserializeAddress [rest] in
  let after := connect this opts c in
  fst after = match fst decoded with
              | Ok b => Ok (tunnel opts b)
              | Err e => Err e
              end
  /\ outgoing (snd after)
     = outgoing c
       ++ [greeting this; auth_message a;
           request Connect (destination opts) (opts_port opts)]
  /\ close_calls (snd after) = close_calls c
  /\ List.concat (incoming (snd after)) = List.concat (snd decoded).
Proof.
  intros Ha Hr decoded after. unfold after, decoded.
  destruct (connectAndRequest_auth this a Connect (destination opts)
              (opts_port opts) c rsv rest Ha Hr) as (r' & Hrun & Hrest).
  set (c1 := with_incoming r' _) in Hrun.
  destruct (on_conn_deserializeAddress c1 rest Hrest)
    as (Hres & Hout & Hcl & Hin).
  rewrite connect_state, connect_as_request, Hrun.
  rewrite Hout, Hcl, Hin, <- Hres.
  repeat split.
  - now destruct (on_conn deserializeAddress c1) as [[b|e] c'].
  - simpl. now rewrite <- !app_assoc.
Qed.

(** Property X17.  Credentials are written only when the proxy picks method
    2. On any other method byte the client writes the greeting alone (wrong
    version, or none acceptable) or the greeting and the request. *)
Theorem connect_credentials_need_method_2 (this : Client)
  (opts : ConnectOptions) (c : Conn) (v m : Z) (rest : list Z) :
  List.concat (incoming c) = [v; m] ++ rest ->
  m <> 2 ->
  let out := outgoing (snd (connect this opts c)) in
  let req := request Connect (destination opts) (opts_port opts) in
  (out = outgoing c ++ [greeting this]
   \/ out = outgoing c ++ [greeting this; req])
  /\ (v = 5 -> m <> 255 -> out = outgoing c ++ [greeting this; req]).
Proof.
  intros Hr Hm out req. unfold out. rewrite connect_state.
  assert (Hother : v = 5 -> m <> 255 ->
            outgoing (snd (connectAndRequest this Connect (destination opts)
                             (opts_port opts) c))
            = outgoing c ++ [greeting this; req]).
  { intros -> H255.
    destruct (connectAndRequest_method_other this Connect (destination opts)
                (opts_port opts) c m rest Hm H255 Hr)
      as (k & r' & Hq & -> & _).
    rewrite Hq. simpl. now rewrite <- app_assoc. }
  split; [|exact Hother].
  destruct (Z.eq_dec v 5) as [->|Hv].
  - destruct (Z.eq_dec m 255) as [->|H255].
    + destruct (connectAndRequest_rejected this Connect (destination opts)
                  (opts_port opts) c rest Hr) as (r' & -> & _).
      now left.
    + right. now apply Hother.
  - destruct (connectAndRequest_version this Connect (destination opts)
                (opts_port opts) c v m rest Hv Hr) as (r' & -> & _).
    now left.
Qed.

(** Property X18.  Without credentials the client still answers a proxy that
    picks [UsernamePassword]: it writes the sub-negotiation with an empty
    username and an empty password. *)
Theorem connect_empty_credentials (this : Client) (opts : ConnectOptions)
  (c : Conn) (rest : list Z) :
  config_auth this = None ->
  List.concat (incoming c) = [5; 2] ++ rest ->
  exists tail,
    outgoing (snd (connect this opts c))
    = outgoing c ++ [[5; 1; 0]; [1; 0; 0]] ++ tail.
Proof.
  intros Ha Hr. rewrite connect_state.
  assert (Hg : greeting this = [5; 1; 0]) by (unfold greeting; now rewrite Ha).
  destruct (on_conn_readN [5; 2] rest (sent (greeting this) c) Hr)
    as (r1 & Hrun & Hrest). simpl List.length in Hrun.
  assert (Hk : exists k c1,
             grows k
             /\ connectAndRequest this Connect (destination opts)
                  (opts_port opts) c = k c1
             /\ outgoing c1 = outgoing c ++ [[5; 1; 0]; [1; 0; 0]]).
  { eexists. eexists. split; [|split].
    2:{ unfold connectAndRequest.
        rewrite bind_writeAll, greeting_sent, (bind_run _ _ _ _ _ Hrun).
        cbn [at_ nth]. checks. rewrite bind_ret. checks.
        rewrite bind_assoc, bind_writeAll. reflexivity. }
    - cbv beta. grows_tac.
    - simpl. unfold encode_field. rewrite Ha, Hg. simpl.
      now rewrite <- app_assoc. }
  destruct Hk as (k & c1 & Hgrows & -> & Hout).
  destruct (Hgrows c1) as (tail & Ht). exists tail.
  rewrite Ht, Hout. now rewrite <- app_assoc.
Qed.

End HandshakeMore.

Lemma connect_chunking_witness :
  fst (@connect plain_engine anonymous to_example
         (from_proxy [[5; 0; 5; 0; 0; 1; 10; 0; 0; 7; 4; 210]] false))
  = fst (@connect plain_engine anonymous to_example
           (from_proxy [[5]; [0; 5; 0]; [0; 1; 10; 0; 0]; [7; 4; 210]] false)).
Proof.
  apply (@connect_chunking plain_engine). repeat split; reflexivity.
Defined.

Lemma connect_version_mismatch_witness :
  (exists c',
     @connect plain_engine anonymous to_example (from_proxy [[4; 0]] false)
     = (Err (Error ("unsupported SOCKS version number: " ++ String_of_Z 4)), c')
     /\ outgoing c' = [] ++ [greeting anonymous]
     /\ close_calls c' = 1%nat)
  /\ (exists c',
        @connect plain_engine anonymous to_example
          (from_proxy [[5; 0]; [4; 0; 0]] false)
        = (Err (Error ("unsupported SOCKS version number: " ++ String_of_Z 4)),
           c')
        /\ outgoing c'
           = [] ++ [greeting anonymous;
                    @request plain_engine Connect (destination to_example)
                      (opts_port to_example)]
        /\ close_calls c' = 1%nat).
Proof.
  split.
  - apply (proj1 (@connect_version_mismatch plain_engine anonymous to_example
                    (from_proxy [[4; 0]] false) 4 ltac:(lia)) 0 []).
    reflexivity.
  - apply (proj2 (@connect_version_mismatch plain_engine anonymous to_example
                    (from_proxy [[5; 0]; [4; 0; 0]] false) 4 ltac:(lia))
             0 0 []).
    reflexivity.
Defined.

Lemma connect_request_denied_witness :
  exists c',
    @connect plain_engine anonymous to_example
      (from_proxy [[5; 0]; [5; 5; 0]; [1; 0; 0; 0; 0; 0; 0]] true)
    = (Err (Error (decodeError 5)), c')
    /\ outgoing c'
       = [] ++ [greeting anonymous;
                @request plain_engine Connect (destination to_example)
                  (opts_port to_example)]
    /\ close_calls c' = 1%nat
    /\ List.concat (incoming c') = [1; 0; 0; 0; 0; 0; 0].
Proof.
  apply (@connect_request_denied plain_engine anonymous to_example
           (from_proxy [[5; 0]; [5; 5; 0]; [1; 0; 0; 0; 0; 0; 0]] true)
           5 0 [1; 0; 0; 0; 0; 0; 0]).
  - lia.
  - reflexivity.
Defined.

Lemma connect_authentication_failed_witness :
  exists c',
    @connect plain_engine registered to_example
      (from_proxy [[5; 2]; [1; 1]] false)
    = (Err (Error (if 1 =? 1 then "authentication failed"
                   else "unsupported authentication version number: "
                        ++ String_of_Z 1)), c')
    /\ outgoing c' = [] ++ [greeting registered; auth_message credentials]
    /\ close_calls c' = 1%nat.
Proof.
  apply (@connect_authentication_failed plain_engine registered credentials
           to_example (from_proxy [[5; 2]; [1; 1]] false) 1 1 []).
  - reflexivity.
  - right. lia.
  - reflexivity.
Defined.

Lemma connect_NoAuth_returns_witness :
  fst (@connect plain_engine anonymous to_example
         (from_proxy [[5; 0]; [5; 0; 0; 1; 10; 0]; [0; 7; 4; 210; 72; 105]]
            false))
  = match fst (@deserializeAddress plain_engine
                 [[1; 10; 0; 0; 7; 4; 210; 72; 105]]) with
    | Ok a => Ok (tunnel to_example a)
    | Err e => Err e
    end.
Proof.
  apply (@connect_NoAuth_returns plain_engine anonymous to_example
           (from_proxy [[5; 0]; [5; 0; 0; 1; 10; 0]; [0; 7; 4; 210; 72; 105]]
              false) 0 [1; 10; 0; 0; 7; 4; 210; 72; 105]).
  reflexivity.
Defined.

Lemma connect_UsernamePassword_returns_witness :
  fst (@connect plain_engine registered to_example
         (from_proxy [[5; 2]; [1; 0]; [5; 0; 0; 1; 127; 0; 0; 1; 31; 144]]
            false))
  = match fst (@deserializeAddress plain_engine
                 [[1; 127; 0; 0; 1; 31; 144]]) with
    | Ok a => Ok (tunnel to_example a)
    | Err e => Err e
    end.
Proof.
  apply (@connect_UsernamePassword_returns plain_engine registered credentials
           to_example
           (from_proxy [[5; 2]; [1; 0]; [5; 0; 0; 1; 127; 0; 0; 1; 31; 144]]
              false) 0 [1; 127; 0; 0; 1; 31; 144]).
  - reflexivity.
  - reflexivity.
Defined.

Lemma connect_credentials_need_method_2_witness :
  outgoing (snd (@connect plain_engine registered to_example
                   (from_proxy [[5; 1]; [5; 0; 0]] false)))
  = [] ++ [greeting registered;
           @request plain_engine Connect (destination to_example)
             (opts_port to_example)].
Proof.
  apply (proj2 (@connect_credentials_need_method_2 plain_engine registered
                  to_example (from_proxy [[5; 1]; [5; 0; 0]] false)
                  5 1 [5; 0; 0] eq_refl ltac:(lia))); [reflexivity|lia].
Defined.

Lemma connect_empty_credentials_witness :
  exists tail,
    outgoing (snd (@connect plain_engine anonymous to_example
                     (from_proxy [[5; 2]; [1; 0]] false)))
    = [] ++ [[5; 1; 0]; [1; 0; 0]] ++ tail.
Proof.
  apply (@connect_empty_credentials plain_engine anonymous to_example
           (from_proxy [[5; 2]; [1; 0]] false) [1; 0]); reflexivity.
Defined.

